(** * Horse Health Record Interpreter: the response sanitizer and the
      prompt composer of [bot.py]

    The development embeds the two pieces of logic of [bot.py]:
    - [clean_response], a pipeline of nine [re.sub] calls followed by
      [str.strip];
    - the body of the [/api/chat] handler [chat], which validates the
      request, assembles the message list and hands it to the model
      service.

    Python strings are sequences of Unicode code points; they are modelled
    as lists of code points ([N]).  The regular expressions of
    [clean_response] are kept as data (a small abstract syntax covering the
    constructs that occur in [bot.py]) and run by a backtracking matcher
    that follows the priority order of Python's [re] module. *)

From Equations Require Import Equations.
From Stdlib Require Import Ascii String.
From Stdlib Require Import List NArith ZArith Arith Bool Lia.
Import ListNotations.

(** ** Strings *)

Definition char := N.
Definition str := list char.

(** A literal of the source, written as a Rocq string (ASCII only). *)
Definition py (s : string) : str :=
  List.map N_of_ascii (list_ascii_of_string s).

Definition nl : char := 10%N.

(** Truth value of a Python string: [bool(s)]. *)
Definition truthy (s : str) : bool :=
  match s with [] => false | _ :: _ => true end.

Fixpoint str_eqb (a b : str) : bool :=
  match a, b with
  | [], [] => true
  | x :: a', y :: b' => N.eqb x y && str_eqb a' b'
  | _, _ => false
  end.

(** [s.startswith(p)]. *)
Fixpoint starts_with (p s : str) : bool :=
  match p, s with
  | [], _ => true
  | x :: p', y :: s' => N.eqb x y && starts_with p' s'
  | _ :: _, [] => false
  end.

(** [needle in hay] on strings. *)
Fixpoint contains (needle hay : str) : bool :=
  starts_with needle hay ||
  match hay with
  | [] => false
  | _ :: hay' => contains needle hay'
  end.

(** [sep.join(parts)]. *)
Fixpoint join (sep : str) (parts : list str) : str :=
  match parts with
  | [] => []
  | [p] => p
  | p :: rest => p ++ sep ++ join sep rest
  end.

(** [str.isspace] on one code point, which is also the class [\s] of a
    [str] pattern: the ASCII controls 9..13 and 28..31, the space, and the
    Unicode white space beyond ASCII. *)
Definition is_space (c : char) : bool :=
  ((9 <=? c) && (c <=? 13) || (28 <=? c) && (c <=? 32)
   || (c =? 133) || (c =? 160) || (c =? 5760)
   || (8192 <=? c) && (c <=? 8202)
   || (c =? 8232) || (c =? 8233) || (c =? 8239) || (c =? 8287)
   || (c =? 12288))%N.

(** [s.lstrip()], [s.rstrip()] and [s.strip()] without argument. *)
Fixpoint lstrip (s : str) : str :=
  match s with
  | [] => []
  | c :: s' => if is_space c then lstrip s' else s
  end.

Fixpoint rstrip (s : str) : str :=
  match s with
  | [] => []
  | c :: s' =>
      match rstrip s' with
      | [] => if is_space c then [] else [c]
      | r => c :: r
      end
  end.

Definition strip (s : str) : str := rstrip (lstrip s).

(** ** Regular expressions

    The patterns of [clean_response] are sequences of single-character
    classes, each taken once, under a lazy star, or under a greedy
    repetition with a lower bound, with one capture group and the
    line-start anchor. *)

Module Re.

Inductive cls :=
| Lit (c : char)      (* an escaped or plain literal *)
| Dot                 (* [.] without DOTALL: anything but a newline *)
| AnyChar             (* [[\s\S]] *)
| Space               (* [\s] *)
| NotChr (c : char).  (* [[^c]] *)

Definition cls_match (k : cls) (c : char) : bool :=
  match k with
  | Lit x => N.eqb c x
  | Dot => negb (N.eqb c nl)
  | AnyChar => true
  | Space => is_space c
  | NotChr x => negb (N.eqb c x)
  end.

Inductive quant :=
| Once
| LazyStar                (* [*?] *)
| Greedy (least : nat).   (* [*] is [Greedy 0], [+] is [Greedy 1], [{3,}] is [Greedy 3] *)

Inductive item :=
| Chr (k : cls) (q : quant)
| Bol      (* [^] under re.MULTILINE *)
| Open     (* [(] of group 1 *)
| Close.   (* [)] of group 1 *)

Definition regex := list item.

(** A successful match: the number of characters consumed and the text of
    group 1. *)
Definition mres := (nat * str)%type.

Definition take (ing : bool) (c : char) (r : mres) : mres :=
  (S (fst r), if ing then c :: snd r else snd r).

(** [^] with MULTILINE holds at the start of the text and right after a
    newline; [prev] is the character before the current position. *)
Definition at_bol (prev : option char) : bool :=
  match prev with
  | None => true
  | Some c => N.eqb c nl
  end.

Section Quantifiers.
Variable k : cls.
Variable ing : bool.
Variable cont : option char -> str -> option mres.

(** Lazy star: the rest of the pattern is tried first, one more
    character is taken only when it fails. *)
Fixpoint lazy_star (prev : option char) (s : str) : option mres :=
  match cont prev s with
  | Some r => Some r
  | None =>
      match s with
      | c :: s' =>
          if cls_match k c
          then option_map (take ing c) (lazy_star (Some c) s')
          else None
      | [] => None
      end
  end.

(** Greedy star: one more character is taken first, the rest of the
    pattern is tried here only when every longer attempt failed. *)
Fixpoint greedy_star (prev : option char) (s : str) : option mres :=
  match s with
  | c :: s' =>
      if cls_match k c
      then match greedy_star (Some c) s' with
           | Some r => Some (take ing c r)
           | None => cont prev s
           end
      else cont prev s
  | [] => cont prev s
  end.

(** Greedy repetition with [least] mandatory characters. *)
Fixpoint at_least (least : nat) (prev : option char) (s : str) : option mres :=
  match least with
  | O => greedy_star prev s
  | S n =>
      match s with
      | c :: s' =>
          if cls_match k c
          then option_map (take ing c) (at_least n (Some c) s')
          else None
      | [] => None
      end
  end.
End Quantifiers.

(** Anchored match of [p] at the current position. *)
Fixpoint rmatch (p : regex) (ing : bool) (prev : option char) (s : str)
  {struct p} : option mres :=
  match p with
  | [] => Some (O, [])
  | Chr k Once :: p' =>
      match s with
      | c :: s' =>
          if cls_match k c
          then option_map (take ing c) (rmatch p' ing (Some c) s')
          else None
      | [] => None
      end
  | Chr k LazyStar :: p' => lazy_star k ing (rmatch p' ing) prev s
  | Chr k (Greedy n) :: p' => at_least k ing (rmatch p' ing) n prev s
  | Bol :: p' => if at_bol prev then rmatch p' ing prev s else None
  | Open :: p' => rmatch p' true prev s
  | Close :: p' => rmatch p' false prev s
  end.

(** Replacement templates: literal characters and [\1]. *)
Inductive titem :=
| TChar (c : char)
| TGroup1.

Definition template := list titem.

Fixpoint expand (t : template) (g : str) : str :=
  match t with
  | [] => []
  | TChar c :: t' => c :: expand t' g
  | TGroup1 :: t' => g ++ expand t' g
  end.

(** The character before the position reached after consuming [w]. *)
Fixpoint prev_after (prev : option char) (w : str) : option char :=
  match w with
  | [] => prev
  | c :: w' => prev_after (Some c) w'
  end.

(** [re.sub(p, t, s)], scanning from a position whose previous character is
    [prev]: the leftmost match is replaced and the scan goes on after it;
    where nothing matches, one character is copied.  Every pattern of
    [bot.py] consumes at least one character when it matches (see
    [min_len_le]), so a match of length zero is treated as no match. *)
Equations? sub_from (p : regex) (t : template) (prev : option char) (s : str)
  : str by wf (length s) lt :=
  sub_from p t prev [] := [];
  sub_from p t prev (c :: s') with rmatch p false prev (c :: s') => {
    | Some (S n, g) :=
        expand t g ++
        sub_from p t (prev_after (Some c) (firstn n s')) (skipn n s');
    | _ := c :: sub_from p t (Some c) s' }.
Proof.
  all: simpl; try lia.
  rewrite length_skipn. lia.
Qed.

Definition sub (p : regex) (t : template) (s : str) : str :=
  sub_from p t None s.

End Re.

Import Re.

(** ** The response sanitizer *)

Definition ch (a : ascii) : char := N_of_ascii a.

Definition star : cls := Lit (ch "*").
Definition underscore : cls := Lit (ch "_").
Definition backtick : cls := Lit (ch "`").

(** [r'\*\*(.*?)\*\*'] *)
Definition re_bold_stars : regex :=
  [Chr star Once; Chr star Once; Open; Chr Dot LazyStar; Close;
   Chr star Once; Chr star Once].

(** [r'\*(.*?)\*'] *)
Definition re_italic_star : regex :=
  [Chr star Once; Open; Chr Dot LazyStar; Close; Chr star Once].

(** [r'_(.*?)_'] *)
Definition re_italic_underscore : regex :=
  [Chr underscore Once; Open; Chr Dot LazyStar; Close; Chr underscore Once].

(** [r'__(.*?)__'] *)
Definition re_bold_underscores : regex :=
  [Chr underscore Once; Chr underscore Once; Open; Chr Dot LazyStar; Close;
   Chr underscore Once; Chr underscore Once].

(** [r'^#+\s*'] with [flags=re.MULTILINE] *)
Definition re_header : regex :=
  [Bol; Chr (Lit (ch "#")) (Greedy 1); Chr Space (Greedy 0)].

(** [r'```[\s\S]*?```'] *)
Definition re_fence : regex :=
  [Chr backtick Once; Chr backtick Once; Chr backtick Once;
   Chr AnyChar LazyStar;
   Chr backtick Once; Chr backtick Once; Chr backtick Once].

(** [r'`([^`]+)`'] *)
Definition re_inline_code : regex :=
  [Chr backtick Once; Open; Chr (NotChr (ch "`")) (Greedy 1); Close;
   Chr backtick Once].

(** [r'\[([^\]]+)\]\([^\)]+\)'] *)
Definition re_link : regex :=
  [Chr (Lit (ch "[")) Once; Open; Chr (NotChr (ch "]")) (Greedy 1); Close;
   Chr (Lit (ch "]")) Once; Chr (Lit (ch "(")) Once;
   Chr (NotChr (ch ")")) (Greedy 1); Chr (Lit (ch ")")) Once].

(** [r'\n{3,}'] *)
Definition re_newlines : regex := [Chr (Lit nl) (Greedy 3)].

(** The templates [r'\1'], [''] and ['\n\n']. *)
Definition group1 : template := [TGroup1].
Definition nothing : template := [].
Definition two_newlines : template := [TChar nl; TChar nl].

(** The body of [clean_response] below its guard, one [re.sub] per line of
    the source, then [text.strip()]. *)
Definition clean_text (text : str) : str :=
  let text := sub re_bold_stars group1 text in
  let text := sub re_italic_star group1 text in
  let text := sub re_italic_underscore group1 text in
  let text := sub re_bold_underscores group1 text in
  let text := sub re_header nothing text in
  let text := sub re_fence nothing text in
  let text := sub re_inline_code group1 text in
  let text := sub re_link group1 text in
  let text := sub re_newlines two_newlines text in
  strip text.

(** [clean_response(text)]: the argument is the [content] of the first
    completion choice, a string or [None].  [if not text: return text]
    hands back [None] and the empty string as they are. *)
Definition clean_response (text : option str) : option str :=
  match text with
  | None => None
  | Some t => if truthy t then Some (clean_text t) else Some t
  end.

(** ** The sanitizer with Python's exceptions

    [clean_response] above is typed for the content of a completion, a
    string or [None].  Python itself checks more at run time: [re.sub]
    compiles the pattern, then the replacement template against the
    groups of the pattern, then tests that its argument is a string; and
    [strip] exists on strings only.  The definitions below keep these
    checks, so that a call can raise. *)

Inductive value :=
| VNone
| VStr (s : str)
| VInt (n : Z).

Inductive exn :=
| re_error         (* a pattern or a template that does not compile *)
| TypeError        (* expected string or bytes-like object *)
| AttributeError.  (* no attribute [strip] *)

Inductive outcome :=
| Return (v : value)
| Raise (e : exn).

Definition bind (o : outcome) (k : value -> outcome) : outcome :=
  match o with
  | Return v => k v
  | Raise e => Raise e
  end.

Notation "x <- o ;; k" := (bind o (fun x => k))
  (at level 61, o at next level, right associativity).

(** [bool(v)] *)
Definition truthy_value (v : value) : bool :=
  match v with
  | VNone => false
  | VStr s => truthy s
  | VInt n => negb (Z.eqb n 0)
  end.

(** The parentheses of a pattern are balanced: what [re.compile] requires
    of the patterns written with the constructs of [item]. *)
Fixpoint balanced_from (depth : nat) (p : regex) : bool :=
  match p with
  | [] => Nat.eqb depth 0
  | Open :: p' => balanced_from (S depth) p'
  | Close :: p' =>
      match depth with
      | O => false
      | S d => balanced_from d p'
      end
  | _ :: p' => balanced_from depth p'
  end.

Definition balanced (p : regex) : bool := balanced_from 0 p.

(** The number of groups of a pattern. *)
Fixpoint groups (p : regex) : nat :=
  match p with
  | [] => 0
  | Open :: p' => S (groups p')
  | _ :: p' => groups p'
  end.

(** Every group the template refers to exists in the pattern; otherwise
    compiling the template raises "invalid group reference". *)
Definition template_ok (p : regex) (t : template) : bool :=
  forallb (fun i => match i with
                    | TGroup1 => Nat.leb 1 (groups p)
                    | TChar _ => true
                    end) t.

(** [re.sub(p, t, text)] with its checks, in the order Python makes them. *)
Definition sub_py (p : regex) (t : template) (text : value) : outcome :=
  if negb (balanced p) then Raise re_error
  else if negb (template_ok p t) then Raise re_error
  else match text with
       | VStr s => Return (VStr (sub p t s))
       | _ => Raise TypeError
       end.

(** [text.strip()] *)
Definition strip_py (text : value) : outcome :=
  match text with
  | VStr s => Return (VStr (strip s))
  | _ => Raise AttributeError
  end.

(** [clean_response(text)] on any value, line by line. *)
Definition clean_response_py (text : value) : outcome :=
  if negb (truthy_value text) then Return text
  else
    text <- sub_py re_bold_stars group1 text ;;
    text <- sub_py re_italic_star group1 text ;;
    text <- sub_py re_italic_underscore group1 text ;;
    text <- sub_py re_bold_underscores group1 text ;;
    text <- sub_py re_header nothing text ;;
    text <- sub_py re_fence nothing text ;;
    text <- sub_py re_inline_code group1 text ;;
    text <- sub_py re_link group1 text ;;
    text <- sub_py re_newlines two_newlines text ;;
    strip_py text.

(** ** The chat handler *)

Inductive role := system | user | assistant.

(** One element of the [messages] array: [{"role": ..., "content": ...}]. *)
Record Message := { role_of : role; content : str }.

(** One element of [history]; [sender] and [text] are read with [msg.get],
    so either key may be missing. *)
Record entry := { sender : option str; text : option str }.

(** The JSON body of the request; every key is optional. *)
Record request_json := {
  json_message : option str;
  json_document_text : option str;
  json_history : option (list entry);
  json_horse_age : option str;
  json_horse_breed : option str;
  json_activity_level : option str
}.

(** [d.get(key, default)] *)
Definition get {A : Type} (o : option A) (default : A) : A :=
  match o with
  | Some v => v
  | None => default
  end.

(** [l[-n:]] for a positive [n]: the slice starts at [max (len l - n) 0]. *)
Definition last_n {A : Type} (n : nat) (l : list A) : list A :=
  skipn (List.length l - n) l.

(** What the model service hands back: an exception anywhere in the call or
    in reading [choices[0].message.content], or that content. *)
Inductive completion :=
| Raised (e : str)
| Returned (text : option str).

(** The JSON bodies [chat] answers with. *)
Inductive body :=
| ErrorBody (error : str)
| FailureBody (error details : str)
| SuccessBody (response : option str).

Record http_response := { status : nat; payload : body }.

Section Chat.
(** The text of the system prompt plays no part in the logic. *)
Variable SYSTEM_PROMPT : str.
(** [client.chat.completions.create] with the fixed model, temperature
    and token ceiling, followed by [.choices[0].message.content]. *)
Variable create : list Message -> completion.

Variable data : request_json.

Definition user_message : str := get (json_message data) [].
Definition document_text : str := get (json_document_text data) [].
Definition conversation_history : list entry := get (json_history data) [].
Definition horse_age : str := get (json_horse_age data) [].
Definition horse_breed : str := get (json_horse_breed data) [].
Definition activity_level : str := get (json_activity_level data) [].

(** The guard [if not user_message and not document_text]. *)
Definition rejected : bool :=
  negb (truthy user_message) && negb (truthy document_text).

Definition metadata_parts : list str :=
  (if truthy horse_age then [py "Horse Age: " ++ horse_age] else []) ++
  (if truthy horse_breed then [py "Breed: " ++ horse_breed] else []) ++
  (if truthy activity_level
   then [py "Activity Level: " ++ activity_level] else []).

(** The horse information appended to [context_parts], if any. *)
Definition metadata_block : list str :=
  if truthy horse_age || truthy horse_breed || truthy activity_level
  then match metadata_parts with
       | [] => []
       | _ :: _ =>
           [py "HORSE INFORMATION:" ++ [nl] ++
            join (py ", ") metadata_parts ++ [nl]]
       end
  else [].

Definition document_block : list str :=
  if truthy document_text
  then [py "HEALTH RECORD DOCUMENT:" ++ [nl] ++ document_text]
  else [].

Definition context_parts : list str := metadata_block ++ document_block.

(** One round of the loop over [conversation_history[-10:]]. *)
Definition add_history (messages : list Message) (msg : entry)
  : list Message :=
  match sender msg with
  | Some s =>
      if str_eqb s (py "user")
      then messages ++ [{| role_of := user; content := get (text msg) [] |}]
      else if str_eqb s (py "assistant")
      then messages ++
           [{| role_of := assistant; content := get (text msg) [] |}]
      else messages
  | None => messages
  end.

(** [user_content] before the safety check. *)
Definition assembled_content : str :=
  match context_parts with
  | _ :: _ =>
      let user_content := join [nl; nl] context_parts in
      if truthy user_message
      then if truthy document_text && truthy user_message
           then user_content ++ [nl; nl] ++
                py "USER QUESTION (about the above document): " ++
                user_message
           else user_content ++ [nl; nl] ++
                py "USER QUESTION: " ++ user_message
      else user_content
  | [] => user_message
  end.

(** [if document_text and document_text not in user_content: ...] *)
Definition safety_check (document_text user_content : str) : str :=
  if truthy document_text && negb (contains document_text user_content)
  then py "HEALTH RECORD DOCUMENT:" ++ [nl] ++ document_text ++
       [nl; nl] ++ user_content
  else user_content.

Definition user_content : str := safety_check document_text assembled_content.

(** The [messages] array passed to the model service. *)
Definition messages : list Message :=
  fold_left add_history (last_n 10 conversation_history)
    [{| role_of := system; content := SYSTEM_PROMPT |}]
  ++ [{| role_of := user; content := user_content |}].

(** The handler of [POST /api/chat]. *)
Definition chat : http_response :=
  if rejected
  then {| status := 400;
          payload :=
            ErrorBody (py "Either message or document_text is required") |}
  else match create messages with
       | Returned response_text =>
           {| status := 200;
              payload := SuccessBody (clean_response response_text) |}
       | Raised e =>
           {| status := 500;
              payload :=
                FailureBody
                  (py "An error occurred while processing your request") e |}
       end.
End Chat.

(** ** Measures on patterns and texts *)

(** The least number of characters a match of [p] consumes. *)
Fixpoint min_len (p : regex) : nat :=
  match p with
  | [] => 0
  | Chr _ Once :: p' => S (min_len p')
  | Chr _ LazyStar :: p' => min_len p'
  | Chr _ (Greedy n) :: p' => n + min_len p'
  | Bol :: p' | Open :: p' | Close :: p' => min_len p'
  end.

(** The class of the character every match of [p] starts with, when the
    pattern fixes one. *)
Fixpoint leading (p : regex) : option cls :=
  match p with
  | Chr k Once :: _ => Some k
  | Chr k (Greedy (S _)) :: _ => Some k
  | Bol :: p' | Open :: p' | Close :: p' => leading p'
  | _ => None
  end.

(** The number of newlines a text starts with. *)
Fixpoint lead_nl (s : str) : nat :=
  match s with
  | c :: s' => if N.eqb c nl then S (lead_nl s') else 0
  | [] => 0
  end.

Definition three_newlines : str := [nl; nl; nl].

(** The characters that open a markdown construct of [clean_response]:
    [*], [_], [#], the backtick and [[]. *)
Definition is_delimiter (c : char) : bool :=
  N.eqb c (ch "*") || N.eqb c (ch "_") || N.eqb c (ch "#") ||
  N.eqb c (ch "`") || N.eqb c (ch "[").

(** A text without a delimiter. *)
Definition plain (s : str) : bool :=
  forallb (fun c => negb (is_delimiter c)) s.

Definition plain_result (o : option str) : bool :=
  match o with
  | Some s => plain s
  | None => true
  end.

(** A text without a delimiter and without white space. *)
Definition word (s : str) : bool :=
  forallb (fun c => negb (is_delimiter c) && negb (is_space c)) s.

(** A match stays within the text: it consumes no more than the text
    holds, and the group is made of characters of the text, no more of them
    than were consumed. *)
Definition within (s : str) (r : mres) : Prop :=
  fst r <= List.length s /\ List.length (snd r) <= fst r /\ incl (snd r) s.

Definition two_underscores : str := [ch "_"; ch "_"].

(** The result of a match after a run of characters was consumed before
    it. *)
Definition takes (ing : bool) (w : str) (r : mres) : mres :=
  (List.length w + fst r, if ing then w ++ snd r else snd r).

(** The pattern opens with a literal that no word holds: a delimiter or a
    white space character. *)
Definition opens_with_mark (p : regex) : bool :=
  match leading p with
  | Some (Lit x) => is_delimiter x || is_space x
  | _ => false
  end.

(** The text starts with a character of the class. *)
Definition starts_with_class (k : cls) (s : str) : bool :=
  match s with
  | c :: _ => cls_match k c
  | [] => false
  end.

(** The character does not occur in the text. *)
Definition lacks (x : char) (s : str) : bool := negb (existsb (N.eqb x) s).

(** ** Vocabulary of the specification *)

(** A key of the request that is missing or holds the empty string. *)
Definition empty_or_absent (o : option str) : Prop := o = None \/ o = Some [].

(** [inner] occurs in [outer] as a contiguous run of characters. *)
Definition substring (inner outer : str) : Prop :=
  exists before after, outer = before ++ inner ++ after.

Definition ends_with (suffix s : str) : Prop := exists lead, s = lead ++ suffix.


(** The history translation as the specification words it: keep the
    entries sent by the user or the assistant, and give each the role of
    its sender. *)
Definition sent_by (who : string) (e : entry) : bool :=
  match sender e with
  | Some s => str_eqb s (py who)
  | None => false
  end.

Definition kept (e : entry) : bool := sent_by "user" e || sent_by "assistant" e.

Definition translated (e : entry) : Message :=
  {| role_of := if sent_by "user" e then user else assistant;
     content := get (text e) [] |}.

Definition translate_history (recent : list entry) : list Message :=
  List.map translated (List.filter kept recent).

(** ** Sample requests *)

Definition only_document (doc : string) : request_json :=
  {| json_message := None; json_document_text := Some (py doc);
     json_history := None; json_horse_age := None;
     json_horse_breed := None; json_activity_level := None |}.

Definition only_question (q : string) : request_json :=
  {| json_message := Some (py q); json_document_text := None;
     json_history := None; json_horse_age := None;
     json_horse_breed := None; json_activity_level := None |}.

Definition with_history (h : list entry) : request_json :=
  {| json_message := Some (py "And now?"); json_document_text := None;
     json_history := Some h; json_horse_age := None;
     json_horse_breed := None; json_activity_level := None |}.

Definition said (who what : string) : entry :=
  {| sender := Some (py who); text := Some (py what) |}.

(** Twelve entries, one of them from an unknown sender. *)
Definition long_history : list entry :=
  [said "user" "q1"; said "assistant" "a1"; said "user" "q2";
   said "assistant" "a2"; said "bot" "noise"; said "user" "q3";
   said "assistant" "a3"; said "user" "q4"; said "assistant" "a4";
   said "user" "q5"; said "assistant" "a5"; said "user" "q6"].


Definition document_and_question (doc q : string) : request_json :=
  {| json_message := Some (py q); json_document_text := Some (py doc);
     json_history := None; json_horse_age := None;
     json_horse_breed := Some (py "Arabian"); json_activity_level := None |}.

(** A model service that always answers with the same text. *)
Definition constant_service (answer : string) : list Message -> completion :=
  fun _ => Returned (Some (py answer)).

Definition metadata_and_question : request_json :=
  {| json_message := Some (py "Is this normal?"); json_document_text := None;
     json_history := None; json_horse_age := Some (py "8");
     json_horse_breed := None; json_activity_level := Some (py "Racing") |}.

(** The last ten entries of [long_history]. *)
Definition recent_history : list entry := skipn 2 long_history.

(** * Properties *)

(** ** Strings *)

Lemma truthy_true_iff (s : str) : truthy s = true <-> s <> [].
Proof. destruct s; simpl; split; congruence. Qed.

Lemma truthy_false_iff (s : str) : truthy s = false <-> s = [].
Proof. destruct s; simpl; split; congruence. Qed.

Lemma str_eqb_eq (a b : str) : str_eqb a b = true <-> a = b.
Proof.
  revert b; induction a as [|x a IH]; intros [|y b]; simpl;
    try (split; congruence).
  rewrite andb_true_iff, N.eqb_eq, IH. split.
  - intros [-> ->]; reflexivity.
  - intros H; inversion H; auto.
Qed.

Lemma starts_with_spec (p s : str) :
  starts_with p s = true <-> exists rest, s = p ++ rest.
Proof.
  revert s; induction p as [|x p IH]; intros s; simpl.
  - split; eauto.
  - destruct s as [|y s].
    + split; [discriminate | intros [r H]; discriminate].
    + rewrite andb_true_iff, N.eqb_eq, IH. split.
      * intros [-> [r ->]]. eauto.
      * intros [r H]. inversion H; subst. eauto.
Qed.

(** [in] decides the substring relation. *)
Lemma contains_spec (needle hay : str) :
  contains needle hay = true <->
  exists before after, hay = before ++ needle ++ after.
Proof.
  induction hay as [|c hay IH].
  - simpl. rewrite orb_false_r, starts_with_spec. split.
    + intros [r H]. exists [], r. exact H.
    + intros [b [a H]]. destruct b; [eauto|discriminate].
  - cbn [contains]. rewrite orb_true_iff, starts_with_spec, IH. split.
    + intros [[r H] | [b [a H]]].
      * exists [], r. exact H.
      * exists (c :: b), a. simpl. f_equal. exact H.
    + intros [[|x b] [a H]].
      * left. eauto.
      * right. inversion H. eauto.
Qed.

Lemma join_snoc (sep : str) (parts : list str) (x : str) :
  exists lead, join sep (parts ++ [x]) = lead ++ x.
Proof.
  induction parts as [|p parts [lead IH]].
  - exists []. reflexivity.
  - destruct parts as [|q parts].
    + exists (p ++ sep). simpl. now rewrite <- app_assoc.
    + exists (p ++ sep ++ lead).
      change (join sep ((p :: q :: parts) ++ [x]))
        with (p ++ sep ++ join sep ((q :: parts) ++ [x])).
      rewrite IH. now rewrite <- !app_assoc.
Qed.


(** ** The prompt composer *)

Section Composer.
Variable SYSTEM_PROMPT : str.
Variable data : request_json.

Lemma document_block_truthy :
  truthy (document_text data) = true ->
  document_block data =
  [py "HEALTH RECORD DOCUMENT:" ++ [nl] ++ document_text data].
Proof. unfold document_block. now intros ->. Qed.

Lemma document_block_falsy :
  truthy (document_text data) = false -> document_block data = [].
Proof. unfold document_block. now intros ->. Qed.

(** With a document, the joined context ends with the document. *)
Lemma context_ends_with_document :
  truthy (document_text data) = true ->
  exists lead,
    join [nl; nl] (context_parts data) =
    lead ++ py "HEALTH RECORD DOCUMENT:" ++ [nl] ++ document_text data.
Proof.
  intros H. unfold context_parts. rewrite (document_block_truthy H).
  apply join_snoc.
Qed.

Lemma context_parts_nonempty :
  truthy (document_text data) = true ->
  exists p parts, context_parts data = p :: parts.
Proof.
  intros H. unfold context_parts. rewrite (document_block_truthy H).
  destruct (metadata_block data); simpl; eauto.
Qed.

(** The safety check leaves alone a content that holds the document. *)
Lemma safety_check_noop (doc before after : str) :
  safety_check doc (before ++ doc ++ after) = before ++ doc ++ after.
Proof.
  unfold safety_check.
  replace (contains doc (before ++ doc ++ after)) with true.
  - now rewrite andb_false_r.
  - symmetry. apply contains_spec. eauto.
Qed.

Lemma safety_check_contains (doc c : str) :
  exists before after, safety_check doc c = before ++ doc ++ after.
Proof.
  unfold safety_check.
  destruct (truthy doc) eqn:T; simpl.
  - destruct (contains doc c) eqn:C; simpl.
    + apply contains_spec. exact C.
    + exists (py "HEALTH RECORD DOCUMENT:" ++ [nl]), ([nl; nl] ++ c).
      now rewrite <- !app_assoc.
  - apply truthy_false_iff in T. subst. exists [], c. reflexivity.
Qed.
End Composer.

(** ** Claims on the prompt composer *)

(** C1. When [document_text] is non-empty, the last message handed to the
    model is a user message whose content holds [document_text] verbatim;
    the safety check guarantees it for any assembled content, prepending
    the document under its heading when the content does not hold it. *)
Theorem document_never_dropped (SYSTEM_PROMPT : str) (data : request_json) :
  truthy (document_text data) = true ->
  (exists earlier,
      messages SYSTEM_PROMPT data =
      earlier ++ [{| role_of := user; content := user_content data |}]) /\
  substring (document_text data) (user_content data) /\
  (forall assembled,
      substring (document_text data)
        (safety_check (document_text data) assembled)) /\
  (forall assembled,
      contains (document_text data) assembled = false ->
      safety_check (document_text data) assembled =
      py "HEALTH RECORD DOCUMENT:" ++ [nl] ++ document_text data ++
      [nl; nl] ++ assembled).
Proof.
  intros T. repeat split.
  - eexists. reflexivity.
  - apply safety_check_contains.
  - intros c. apply safety_check_contains.
  - intros c C. unfold safety_check. now rewrite T, C.
Qed.

Lemma document_never_dropped_witness :
  truthy (document_text (only_document "CK 450")) = true /\
  substring (py "CK 450") (user_content (only_document "CK 450")).
Proof.
  split; [reflexivity|].
  apply (document_never_dropped (py "prompt") (only_document "CK 450")).
  reflexivity.
Defined.

(** C2. The handler answers 400 with the fixed error body exactly when
    [message] and [document_text] are both empty or absent; in every other
    case its status is not 400. *)
Theorem rejected_iff_both_empty
    (SYSTEM_PROMPT : str) (create : list Message -> completion)
    (data : request_json) :
  (chat SYSTEM_PROMPT create data =
   {| status := 400;
      payload := ErrorBody (py "Either message or document_text is required") |}
   <-> empty_or_absent (json_message data) /\
       empty_or_absent (json_document_text data)) /\
  (status (chat SYSTEM_PROMPT create data) = 400
   <-> empty_or_absent (json_message data) /\
       empty_or_absent (json_document_text data)).
Proof.
  assert (E : rejected data = true <->
              empty_or_absent (json_message data) /\
              empty_or_absent (json_document_text data)).
  { unfold rejected, user_message, document_text, empty_or_absent.
    destruct (json_message data) as [[|a m]|];
      destruct (json_document_text data) as [[|b d]|]; simpl;
      intuition (auto; try discriminate). }
  unfold chat. split.
  - rewrite <- E. destruct (rejected data); [tauto|].
    destruct (create _); split; discriminate.
  - rewrite <- E. destruct (rejected data); [simpl; tauto|].
    destruct (create _); split; discriminate.
Qed.

(** One round of the loop appends the translation of the entry, if it is
    kept. *)
Lemma add_history_translated (init : list Message) (e : entry) :
  add_history init e = init ++ (if kept e then [translated e] else []).
Proof.
  destruct e as [[s|] t]; unfold add_history, kept, translated, sent_by;
    cbn [sender text].
  - destruct (str_eqb s (py "user")); [reflexivity|].
    destruct (str_eqb s (py "assistant")); simpl;
      [reflexivity | now rewrite app_nil_r].
  - simpl. now rewrite app_nil_r.
Qed.

(** The loop over the history appends the translation of the entries it
    visits. *)
Lemma fold_add_history (entries : list entry) (init : list Message) :
  fold_left add_history entries init = init ++ translate_history entries.
Proof.
  revert init; induction entries as [|e entries IH]; intros init.
  - simpl. now rewrite app_nil_r.
  - cbn [fold_left]. rewrite IH, add_history_translated.
    unfold translate_history. cbn [filter].
    rewrite <- app_assoc. f_equal. now destruct (kept e).
Qed.

Lemma last_n_suffix {A : Type} (n : nat) (l : list A) :
  exists older, l = older ++ last_n n l /\
                List.length (last_n n l) = Nat.min n (List.length l).
Proof.
  exists (firstn (List.length l - n) l). unfold last_n. split.
  - symmetry. apply firstn_skipn.
  - rewrite length_skipn. lia.
Qed.

(** C3. The messages between the system prompt and the final user turn are
    the translation of the last ten history entries: those sent by "user"
    or "assistant", in their order, each with the role of its sender. *)
Theorem history_last_ten_translated
    (SYSTEM_PROMPT : str) (data : request_json) :
  exists older recent,
    conversation_history data = older ++ recent /\
    List.length recent = Nat.min 10 (List.length (conversation_history data)) /\
    messages SYSTEM_PROMPT data =
    [{| role_of := system; content := SYSTEM_PROMPT |}] ++
    List.map translated (List.filter kept recent) ++
    [{| role_of := user; content := user_content data |}].
Proof.
  destruct (last_n_suffix 10 (conversation_history data)) as [older [E L]].
  exists older, (last_n 10 (conversation_history data)).
  repeat split; try assumption.
  unfold messages. rewrite fold_add_history. unfold translate_history.
  now rewrite <- app_assoc.
Qed.

(** On twelve entries the first two are left out, and so is the entry of
    the unknown sender. *)
Example history_of_twelve :
  messages (py "prompt") (with_history long_history) =
  [{| role_of := system; content := py "prompt" |};
   {| role_of := user; content := py "q2" |};
   {| role_of := assistant; content := py "a2" |};
   {| role_of := user; content := py "q3" |};
   {| role_of := assistant; content := py "a3" |};
   {| role_of := user; content := py "q4" |};
   {| role_of := assistant; content := py "a4" |};
   {| role_of := user; content := py "q5" |};
   {| role_of := assistant; content := py "a5" |};
   {| role_of := user; content := py "q6" |};
   {| role_of := user; content := py "And now?" |}].
Proof. reflexivity. Qed.

(** The safety check never fires: what [chat] assembles holds the document
    whenever there is one. *)
Lemma user_content_assembled (data : request_json) :
  user_content data = assembled_content data.
Proof.
  unfold user_content.
  destruct (truthy (document_text data)) eqn:T.
  - destruct (context_ends_with_document data T) as [lead E].
    destruct (context_parts_nonempty data T) as [p [parts P]].
    unfold assembled_content. rewrite E, P, T.
    set (before := lead ++ py "HEALTH RECORD DOCUMENT:" ++ [nl]).
    assert (B : forall after,
               (lead ++ py "HEALTH RECORD DOCUMENT:" ++ [nl] ++
                document_text data) ++ after =
               before ++ document_text data ++ after).
    { intros after. unfold before. now rewrite <- !app_assoc. }
    destruct (truthy (user_message data)); cbn [andb].
    + rewrite B. apply safety_check_noop.
    + rewrite <- (app_nil_r (lead ++ _)), B. apply safety_check_noop.
  - unfold safety_check. now rewrite T.
Qed.

(** Without a question the content is the joined context. *)
Lemma content_without_question (data : request_json) :
  truthy (document_text data) = true ->
  truthy (user_message data) = false ->
  user_content data = join [nl; nl] (context_parts data).
Proof.
  intros D Q. rewrite user_content_assembled. unfold assembled_content.
  destruct (context_parts_nonempty data D) as [p [parts P]].
  rewrite P, Q. reflexivity.
Qed.


(** C6. The question suffix: with a document and a question the content
    ends with the question under its heading; with a question and neither
    document nor metadata the content is the question; with a document and
    no question the content is the context alone and ends with the
    document. *)
Theorem question_suffix_cases (data : request_json) :
  (truthy (document_text data) = true ->
   truthy (user_message data) = true ->
   ends_with
     (py "USER QUESTION (about the above document): " ++ user_message data)
     (user_content data)) /\
  (truthy (document_text data) = false ->
   truthy (horse_age data) = false ->
   truthy (horse_breed data) = false ->
   truthy (activity_level data) = false ->
   user_content data = user_message data) /\
  (truthy (document_text data) = true ->
   truthy (user_message data) = false ->
   user_content data = join [nl; nl] (context_parts data) /\
   ends_with (py "HEALTH RECORD DOCUMENT:" ++ [nl] ++ document_text data)
     (user_content data)).
Proof.
  split; [|split].
  - intros D Q. rewrite user_content_assembled. unfold assembled_content.
    destruct (context_parts_nonempty data D) as [p [parts P]].
    rewrite P, Q, D. cbn [andb].
    exists (join [nl; nl] (p :: parts) ++ [nl; nl]).
    now rewrite <- !app_assoc.
  - intros D A B L. rewrite user_content_assembled.
    unfold assembled_content, context_parts, metadata_block, document_block.
    now rewrite D, A, B, L.
  - intros D Q. rewrite (content_without_question data D Q).
    split; [reflexivity|].
    apply context_ends_with_document. exact D.
Qed.

Lemma question_suffix_cases_witness :
  ends_with (py "USER QUESTION (about the above document): Is CK high?")
    (user_content (document_and_question "CK 450" "Is CK high?")) /\
  user_content (only_question "What is CK?") = py "What is CK?" /\
  ends_with (py "HEALTH RECORD DOCUMENT:" ++ [nl] ++ py "CK 450")
    (user_content (only_document "CK 450")).
Proof.
  split; [|split].
  - apply (proj1 (question_suffix_cases
                    (document_and_question "CK 450" "Is CK high?")));
      reflexivity.
  - apply (proj1 (proj2 (question_suffix_cases
                           (only_question "What is CK?"))));
      reflexivity.
  - apply (proj2 (proj2 (question_suffix_cases (only_document "CK 450"))));
      reflexivity.
Defined.

Lemma metadata_parts_nonempty (data : request_json) :
  (truthy (horse_age data) || truthy (horse_breed data)
   || truthy (activity_level data)) = true ->
  metadata_parts data <> [].
Proof.
  unfold metadata_parts.
  destruct (truthy (horse_age data)); [discriminate|].
  destruct (truthy (horse_breed data)); [discriminate|].
  destruct (truthy (activity_level data)); discriminate.
Qed.





(** C10. The validation tests for the empty string, not for blankness:
    with an empty or absent [message] and a [document_text] made of white
    space only, the request is not rejected; the model service is called
    with the composed messages, whose last content is the document under
    its heading. *)
Theorem blank_document_passes_validation
    (SYSTEM_PROMPT : str) (create : list Message -> completion)
    (data : request_json) (blank : str) :
  empty_or_absent (json_message data) ->
  json_document_text data = Some blank ->
  blank <> [] ->
  forallb is_space blank = true ->
  rejected data = false /\
  status (chat SYSTEM_PROMPT create data) <> 400 /\
  chat SYSTEM_PROMPT create data =
  match create (messages SYSTEM_PROMPT data) with
  | Returned response_text =>
      {| status := 200; payload := SuccessBody (clean_response response_text) |}
  | Raised e =>
      {| status := 500;
         payload :=
           FailureBody (py "An error occurred while processing your request") e |}
  end /\
  (exists lead,
      user_content data =
      lead ++ py "HEALTH RECORD DOCUMENT:" ++ [nl] ++ blank).
Proof.
  intros M D NE _.
  assert (T : truthy (document_text data) = true).
  { unfold document_text. rewrite D. now apply truthy_true_iff. }
  assert (Q : truthy (user_message data) = false).
  { unfold user_message. destruct M as [-> | ->]; reflexivity. }
  assert (R : rejected data = false).
  { unfold rejected. rewrite T. apply andb_false_r. }
  split; [exact R|]. unfold chat. rewrite R. split; [|split].
  - destruct (create _); discriminate.
  - reflexivity.
  - rewrite (content_without_question data T Q).
    destruct (context_ends_with_document data T) as [lead E].
    exists lead. rewrite E. unfold document_text. now rewrite D.
Qed.

Lemma blank_document_passes_validation_witness :
  status (chat (py "prompt") (constant_service "ok") (only_document " "))
  <> 400 /\
  user_content (only_document " ") =
  py "HEALTH RECORD DOCUMENT:" ++ [nl] ++ py " ".
Proof.
  split.
  - apply (blank_document_passes_validation (py "prompt")
             (constant_service "ok") (only_document " ") (py " "));
      [left; reflexivity | reflexivity | discriminate | reflexivity].
  - reflexivity.
Defined.

(** ** The matcher *)

Section QuantifierBounds.
Variable k : cls.
Variable ing : bool.
Variable cont : option char -> str -> option mres.
Variable m : nat.
Hypothesis cont_least :
  forall prev s r, cont prev s = Some r -> m <= fst r.

Lemma lazy_star_least prev s r :
  lazy_star k ing cont prev s = Some r -> m <= fst r.
Proof.
  revert prev r; induction s as [|c s IH]; intros prev r; simpl.
  - destruct (cont prev []) eqn:C; [|discriminate].
    intros [= <-]. eapply cont_least; eauto.
  - destruct (cont prev (c :: s)) eqn:C.
    + intros [= <-]. eapply cont_least; eauto.
    + destruct (cls_match k c); [|discriminate].
      destruct (lazy_star k ing cont (Some c) s) eqn:L; [|discriminate].
      intros [= <-]. simpl. apply IH in L. lia.
Qed.

Lemma greedy_star_least prev s r :
  greedy_star k ing cont prev s = Some r -> m <= fst r.
Proof.
  revert prev r; induction s as [|c s IH]; intros prev r; simpl.
  - apply cont_least.
  - destruct (cls_match k c); [|apply cont_least].
    destruct (greedy_star k ing cont (Some c) s) eqn:G.
    + intros [= <-]. simpl. apply IH in G. lia.
    + apply cont_least.
Qed.

Lemma at_least_least n prev s r :
  at_least k ing cont n prev s = Some r -> n + m <= fst r.
Proof.
  revert prev s r; induction n as [|n IH]; intros prev s r; simpl.
  - apply greedy_star_least.
  - destruct s as [|c s]; [discriminate|].
    destruct (cls_match k c); [|discriminate].
    destruct (at_least k ing cont n (Some c) s) eqn:A; [|discriminate].
    intros [= <-]. simpl. apply IH in A. lia.
Qed.
End QuantifierBounds.

(** A match consumes at least [min_len p] characters. *)
Lemma min_len_le (p : regex) :
  forall ing prev s r, rmatch p ing prev s = Some r -> min_len p <= fst r.
Proof.
  induction p as [|[k [| |n]| | |] p IH]; intros ing prev s r; simpl.
  - intros [= <-]. simpl. lia.
  - destruct s as [|c s]; [discriminate|].
    destruct (cls_match k c); [|discriminate].
    destruct (rmatch p ing (Some c) s) eqn:M; [|discriminate].
    intros [= <-]. simpl. apply IH in M. lia.
  - apply lazy_star_least. apply IH.
  - apply at_least_least. apply IH.
  - destruct (at_bol prev); [apply IH | discriminate].
  - apply IH.
  - apply IH.
Qed.

(** Every pattern of [clean_response] consumes a character when it
    matches, so [sub_from] never meets a match of length zero. *)
Lemma patterns_consume :
  Forall (fun p => 1 <= min_len p)
    [re_bold_stars; re_italic_star; re_italic_underscore;
     re_bold_underscores; re_header; re_fence; re_inline_code; re_link;
     re_newlines].
Proof. repeat constructor; simpl; lia. Qed.

Lemma no_empty_match (p : regex) :
  1 <= min_len p ->
  forall prev s g, rmatch p false prev s <> Some (0, g).
Proof.
  intros L prev s g M. apply min_len_le in M. simpl in M. lia.
Qed.

(** A match starts with a character of the leading class. *)
Lemma leading_head (p : regex) (k : cls) :
  leading p = Some k ->
  forall ing prev s r,
    rmatch p ing prev s = Some r ->
    exists c s', s = c :: s' /\ cls_match k c = true.
Proof.
  induction p as [|[k' [| |[|n]]| | |] p IH]; simpl; try discriminate.
  - intros [= ->] ing prev [|c s] r; [discriminate|].
    destruct (cls_match k c) eqn:K; [eauto | discriminate].
  - intros [= ->] ing prev [|c s] r; [discriminate|].
    destruct (cls_match k c) eqn:K; [eauto | discriminate].
  - intros L ing prev s r. destruct (at_bol prev); [eauto | discriminate].
  - intros L ing prev s r. eauto.
  - intros L ing prev s r. eauto.
Qed.

(** The scan, one step at a time. *)
Lemma sub_from_cons (p : regex) (t : template) prev (c : char) (s : str) :
  sub_from p t prev (c :: s) =
  match rmatch p false prev (c :: s) with
  | Some (S n, g) =>
      expand t g ++ sub_from p t (prev_after (Some c) (firstn n s)) (skipn n s)
  | _ => c :: sub_from p t (Some c) s
  end.
Proof.
  simp sub_from.
  destruct (rmatch p false prev (c :: s)) as [[[|n] g]|]; reflexivity.
Qed.

(** Where no character can start a match, the text is left as it is. *)
Lemma sub_from_untouched (p : regex) (t : template) (k : cls) :
  leading p = Some k ->
  forall s prev,
    (forall c, In c s -> cls_match k c = false) ->
    sub_from p t prev s = s.
Proof.
  intros L. induction s as [|c s IH]; intros prev H.
  - now simp sub_from.
  - rewrite sub_from_cons.
    destruct (rmatch p false prev (c :: s)) as [r|] eqn:M.
    + destruct (leading_head p k L _ _ _ _ M) as [c' [s' [E K]]].
      inversion E; subst. rewrite H in K; [discriminate | now left].
    + f_equal. apply IH. intros x X. apply H. now right.
Qed.

(** The matcher on small texts: the lazy star stops at the first closing
    mark, the dot does not cross a newline, and the header rule needs the
    start of a line. *)
Example lazy_star_first_closing :
  sub re_bold_stars group1 (py "**a** b **c**") = py "a b c".
Proof. vm_compute. reflexivity. Qed.

Example dot_stops_at_newline :
  sub re_italic_star group1 (py "*a" ++ [nl] ++ py "b*") =
  py "*a" ++ [nl] ++ py "b*".
Proof. vm_compute. reflexivity. Qed.

Example header_at_line_start :
  sub re_header nothing (py "x # y" ++ [nl] ++ py "##  z") =
  py "x # y" ++ [nl] ++ py "z".
Proof. vm_compute. reflexivity. Qed.

Example link_keeps_label :
  rmatch re_link false None (py "[vet](http://x.com)!") =
  Some (19, py "vet").
Proof. vm_compute. reflexivity. Qed.

(** ** Collapsing newlines *)

Lemma starts_with_three_newlines (s : str) :
  starts_with three_newlines s = (3 <=? lead_nl s).
Proof.
  unfold three_newlines.
  destruct s as [|a [|b [|c s]]]; cbn [starts_with lead_nl];
    repeat match goal with
           | |- context [N.eqb nl ?x] =>
               rewrite (N.eqb_sym nl x); destruct (N.eqb x nl); cbn [andb]
           end; reflexivity.
Qed.

Lemma greedy_newlines prev (s : str) :
  greedy_star (Lit nl) false (rmatch [] false) prev s = Some (lead_nl s, []).
Proof.
  revert prev; induction s as [|c s IH]; intros prev; simpl.
  - reflexivity.
  - destruct (N.eqb c nl); [|reflexivity]. now rewrite IH.
Qed.

(** [\n{3,}] matches where at least three newlines start the text, and
    takes them all. *)
Lemma rmatch_newlines prev (s : str) :
  rmatch re_newlines false prev s =
  if 3 <=? lead_nl s then Some (lead_nl s, []) else None.
Proof.
  unfold re_newlines. cbn [rmatch at_least].
  destruct s as [|a s]; [reflexivity|]. cbn [cls_match lead_nl].
  destruct (N.eqb a nl); [|reflexivity].
  destruct s as [|b s]; [reflexivity|]. cbn [cls_match lead_nl].
  destruct (N.eqb b nl); [|reflexivity].
  destruct s as [|c s]; [reflexivity|]. cbn [cls_match lead_nl].
  destruct (N.eqb c nl); [|reflexivity].
  rewrite greedy_newlines. reflexivity.
Qed.

Lemma lead_nl_le_length (s : str) : lead_nl s <= List.length s.
Proof.
  induction s as [|c s IH]; simpl; [lia|].
  destruct (N.eqb c nl); lia.
Qed.

Lemma lead_nl_skipn (s : str) : lead_nl (skipn (lead_nl s) s) = 0.
Proof.
  induction s as [|c s IH]; simpl; [reflexivity|].
  destruct (N.eqb c nl) eqn:E; simpl; [exact IH | now rewrite E].
Qed.

(** The collapsed text has no run of three newlines, and starts with as
    many newlines as the text did, two at most. *)
Lemma collapse_invariant (n : nat) :
  forall s prev, List.length s <= n ->
    contains three_newlines (sub_from re_newlines two_newlines prev s) = false
    /\ lead_nl (sub_from re_newlines two_newlines prev s)
       = Nat.min 2 (lead_nl s).
Proof.
  induction n as [|n IH]; intros s prev Hn.
  - destruct s; [|simpl in Hn; lia]. simp sub_from. split; reflexivity.
  - destruct s as [|c s]; [simp sub_from; split; reflexivity|].
    rewrite sub_from_cons, rmatch_newlines.
    destruct (3 <=? lead_nl (c :: s)) eqn:T.
    + apply Nat.leb_le in T. cbn [lead_nl] in *.
      destruct (N.eqb c nl) eqn:C; [|lia].
      destruct (lead_nl s) as [|k] eqn:Ls; [lia|].
      pose proof (lead_nl_le_length s) as Le.
      pose proof (lead_nl_skipn s) as Z. rewrite Ls in Z, Le.
      destruct (IH (skipn (S k) s)
                  (prev_after (Some c) (firstn (S k) s))) as [N0 L0].
      { rewrite length_skipn. simpl in Hn. lia. }
      rewrite Z in L0. simpl in L0.
      set (out := sub_from _ _ _ _) in *.
      cbn [two_newlines expand app]. split.
      * cbn [contains]. rewrite !starts_with_three_newlines, N0.
        cbn [lead_nl]. rewrite N.eqb_refl, L0. reflexivity.
      * cbn [lead_nl]. rewrite N.eqb_refl, L0. reflexivity.
    + apply Nat.leb_gt in T.
      destruct (IH s (Some c)) as [N0 L0]; [simpl in Hn; lia|].
      set (out := sub_from _ _ _ _) in *. split.
      * cbn [contains]. rewrite starts_with_three_newlines, N0.
        cbn [lead_nl] in *. destruct (N.eqb c nl); [|reflexivity].
        rewrite L0. rewrite orb_false_r. apply Nat.leb_gt. lia.
      * cbn [lead_nl] in *. destruct (N.eqb c nl); [|reflexivity].
        rewrite L0. lia.
Qed.

Lemma collapse_no_run (s : str) :
  contains three_newlines (sub re_newlines two_newlines s) = false.
Proof. apply (collapse_invariant (List.length s)). lia. Qed.

(** A text without a run of three newlines is left as it is. *)
Lemma collapse_untouched (s : str) :
  contains three_newlines s = false ->
  forall prev, sub_from re_newlines two_newlines prev s = s.
Proof.
  induction s as [|c s IH]; intros H prev.
  - now simp sub_from.
  - cbn [contains] in H. apply orb_false_iff in H. destruct H as [H1 H2].
    rewrite sub_from_cons, rmatch_newlines.
    rewrite <- starts_with_three_newlines, H1. f_equal. now apply IH.
Qed.

(** ** Stripping *)

Lemma lstrip_suffix (s : str) : exists a, s = a ++ lstrip s.
Proof.
  induction s as [|c s [a IH]]; simpl.
  - exists []. reflexivity.
  - destruct (is_space c).
    + exists (c :: a). simpl. now f_equal.
    + exists []. reflexivity.
Qed.

Lemma rstrip_prefix (s : str) : exists b, s = rstrip s ++ b.
Proof.
  induction s as [|c s [b IH]]; simpl.
  - exists []. reflexivity.
  - destruct (rstrip s) as [|x r] eqn:R.
    + destruct (is_space c).
      * exists (c :: s). reflexivity.
      * exists s. reflexivity.
    + exists b. simpl in *. now f_equal.
Qed.

Lemma strip_substring (s : str) : substring (strip s) s.
Proof.
  unfold strip. destruct (lstrip_suffix s) as [a A].
  destruct (rstrip_prefix (lstrip s)) as [b B].
  exists a, b. now rewrite <- B.
Qed.

Lemma lstrip_head (s : str) (c : char) (rest : str) :
  lstrip s = c :: rest -> is_space c = false.
Proof.
  induction s as [|x s IH]; simpl; [discriminate|].
  destruct (is_space x) eqn:X; [exact IH|]. now intros [= <- _].
Qed.

Lemma rstrip_head (s : str) (c : char) (rest : str) :
  rstrip s = c :: rest -> exists rest', s = c :: rest'.
Proof.
  destruct s as [|x s]; simpl; [discriminate|].
  destruct (rstrip s).
  - destruct (is_space x); [discriminate|]. intros [= <- _]. eauto.
  - intros [= <- _]. eauto.
Qed.

Lemma rstrip_last (s : str) (front : str) (c : char) :
  rstrip s = front ++ [c] -> is_space c = false.
Proof.
  revert front; induction s as [|x s IH]; intros front; simpl.
  - destruct front; discriminate.
  - destruct (rstrip s) as [|y r] eqn:R.
    + destruct (is_space x) eqn:X.
      * destruct front; discriminate.
      * destruct front as [|f [|g front]]; simpl; try discriminate.
        now intros [= <-].
    + destruct front as [|f front]; simpl; [discriminate|].
      intros [= _ E]. eapply IH. exact E.
Qed.

Lemma strip_head (s : str) (c : char) (rest : str) :
  strip s = c :: rest -> is_space c = false.
Proof.
  unfold strip. intros H. destruct (rstrip_head _ _ _ H) as [rest' E].
  eapply lstrip_head. exact E.
Qed.

Lemma strip_last (s : str) (front : str) (c : char) :
  strip s = front ++ [c] -> is_space c = false.
Proof. unfold strip. apply rstrip_last. Qed.

Lemma substring_trans (a b c : str) :
  substring a b -> substring b c -> substring a c.
Proof.
  intros [p [q ->]] [u [v ->]]. exists (u ++ p), (q ++ v).
  now rewrite <- !app_assoc.
Qed.

Lemma lstrip_fixed (s : str) :
  (forall c rest, s = c :: rest -> is_space c = false) -> lstrip s = s.
Proof.
  destruct s as [|c s]; simpl; [reflexivity|]. intros H.
  now rewrite (H c s eq_refl).
Qed.

Lemma rstrip_fixed (s : str) :
  (forall front c, s = front ++ [c] -> is_space c = false) -> rstrip s = s.
Proof.
  induction s as [|x s IH]; intros H; simpl; [reflexivity|].
  rewrite IH.
  - destruct s; [|reflexivity]. now rewrite (H [] x eq_refl).
  - intros front c E. apply (H (x :: front) c). simpl. now f_equal.
Qed.

Lemma strip_fixed (s : str) :
  (forall c rest, s = c :: rest -> is_space c = false) ->
  (forall front c, s = front ++ [c] -> is_space c = false) ->
  strip s = s.
Proof.
  intros H L. unfold strip. rewrite (lstrip_fixed s H). now apply rstrip_fixed.
Qed.

Lemma strip_strip (s : str) : strip (strip s) = strip s.
Proof.
  apply strip_fixed.
  - intros c rest. apply strip_head.
  - intros front c. apply strip_last.
Qed.

(** ** Claims on the sanitizer *)

(** C4. The sanitizer maps the four sample inputs of the specification to
    the outputs it states. *)
Theorem sanitizer_examples :
  clean_response (Some (py "**Hello** _world_")) = Some (py "Hello world") /\
  clean_response (Some (py "# Title" ++ [nl; nl] ++ py "Some `code` here"))
  = Some (py "Title" ++ [nl; nl] ++ py "Some code here") /\
  clean_response
    (Some (py "```" ++ [nl] ++ py "block" ++ [nl] ++ py "```" ++ [nl] ++
           py "After"))
  = Some (py "After") /\
  clean_response (Some (py "[link](http://x.com) text"))
  = Some (py "link text").
Proof. repeat split; vm_compute; reflexivity. Qed.

(** A call of [re.sub] whose pattern and template compile returns the
    substituted text when it is given a string. *)
Lemma sub_py_str (p : regex) (t : template) (s : str) :
  balanced p = true -> template_ok p t = true ->
  sub_py p t (VStr s) = Return (VStr (sub p t s)).
Proof. intros B T. unfold sub_py. now rewrite B, T. Qed.

(** The checks are not idle: a value that is not a string makes the
    first substitution raise, a false one comes back as it is, and a
    template that asks for a group the pattern lacks does not compile. *)
Example non_string_raises :
  clean_response_py (VInt 5) = Raise TypeError /\
  clean_response_py (VInt 0) = Return (VInt 0) /\
  sub_py re_header group1 (VStr (py "# a")) = Raise re_error /\
  strip_py VNone = Raise AttributeError.
Proof. repeat split. Qed.

(** C9. The sanitizer has no failure mode on the content of a
    completion: [None] and the empty string come back as they are, and
    on every other string each of the nine substitutions compiles, is
    given a string, and hands a string to the next one and to [strip], so
    that a string is returned and nothing is raised.  The string is the
    one [clean_response] gives. *)
Theorem clean_response_never_raises :
  clean_response_py VNone = Return VNone /\
  clean_response_py (VStr []) = Return (VStr []) /\
  (forall text : str, exists cleaned : str,
      clean_response_py (VStr text) = Return (VStr cleaned) /\
      clean_response (Some text) = Some cleaned) /\
  (forall (text : str) (e : exn), clean_response_py (VStr text) <> Raise e).
Proof.
  assert (R : forall text : str,
             clean_response_py (VStr text) =
             Return (VStr (if truthy text then clean_text text else text))).
  { intros text. unfold clean_response_py. cbn [truthy_value].
    destruct (truthy text); [|reflexivity]. cbn [negb].
    rewrite sub_py_str by reflexivity. cbn [bind].
    rewrite sub_py_str by reflexivity. cbn [bind].
    rewrite sub_py_str by reflexivity. cbn [bind].
    rewrite sub_py_str by reflexivity. cbn [bind].
    rewrite sub_py_str by reflexivity. cbn [bind].
    rewrite sub_py_str by reflexivity. cbn [bind].
    rewrite sub_py_str by reflexivity. cbn [bind].
    rewrite sub_py_str by reflexivity. cbn [bind].
    rewrite sub_py_str by reflexivity. cbn [bind strip_py].
    reflexivity. }
  split; [reflexivity|]. split; [reflexivity|]. split.
  - intros text. rewrite R. unfold clean_response.
    destruct (truthy text); eexists; split; reflexivity.
  - intros text e. rewrite R. discriminate.
Qed.

(** ** Texts without markup *)

Lemma plain_spec (s : str) :
  plain s = true <-> forall c, In c s -> is_delimiter c = false.
Proof.
  unfold plain. rewrite forallb_forall. split; intros H c I.
  - apply negb_true_iff. now apply H.
  - apply negb_true_iff. now apply H.
Qed.

Lemma word_spec (s : str) :
  word s = true <->
  forall c, In c s -> is_delimiter c = false /\ is_space c = false.
Proof.
  unfold word. rewrite forallb_forall. split; intros H c I.
  - apply H in I. apply andb_true_iff in I.
    now rewrite !negb_true_iff in I.
  - apply H in I. destruct I as [-> ->]. reflexivity.
Qed.

Lemma word_plain (s : str) : word s = true -> plain s = true.
Proof.
  rewrite word_spec, plain_spec. intros H c I. now apply H.
Qed.

(** A pattern that opens with a delimiter finds nothing in a plain text. *)
Lemma sub_plain (p : regex) (t : template) (x : char) (s : str) :
  leading p = Some (Lit x) -> is_delimiter x = true ->
  plain s = true -> sub p t s = s.
Proof.
  intros L D P. unfold sub. apply (sub_from_untouched p t (Lit x) L).
  intros c I. simpl. destruct (N.eqb c x) eqn:E; [|reflexivity].
  apply N.eqb_eq in E. subst c.
  rewrite plain_spec in P. rewrite (P x I) in D. discriminate.
Qed.

(** On a plain text only the newline rule and the final strip act. *)
Lemma clean_text_plain (s : str) :
  plain s = true -> clean_text s = strip (sub re_newlines two_newlines s).
Proof.
  intros P. unfold clean_text.
  rewrite (sub_plain re_bold_stars group1 (ch "*")); auto.
  rewrite (sub_plain re_italic_star group1 (ch "*")); auto.
  rewrite (sub_plain re_italic_underscore group1 (ch "_")); auto.
  rewrite (sub_plain re_bold_underscores group1 (ch "_")); auto.
  rewrite (sub_plain re_header nothing (ch "#")); auto.
  rewrite (sub_plain re_fence nothing (ch "`")); auto.
  rewrite (sub_plain re_inline_code group1 (ch "`")); auto.
  rewrite (sub_plain re_link group1 (ch "[")); auto.
Qed.

Lemma in_skipn {A : Type} (n : nat) (l : list A) (x : A) :
  In x (skipn n l) -> In x l.
Proof.
  intros H. rewrite <- (firstn_skipn n l). apply in_or_app. now right.
Qed.

(** Collapsing brings in no character the text did not have. *)
Lemma collapse_chars (n : nat) :
  forall s prev c, List.length s <= n ->
    In c (sub_from re_newlines two_newlines prev s) -> In c s.
Proof.
  induction n as [|n IH]; intros s prev c Hn.
  - destruct s; [|simpl in Hn; lia]. now simp sub_from.
  - destruct s as [|x s]; [now simp sub_from|].
    rewrite sub_from_cons, rmatch_newlines.
    destruct (3 <=? lead_nl (x :: s)) eqn:T.
    + apply Nat.leb_le in T. cbn [lead_nl] in *.
      destruct (N.eqb x nl) eqn:X; [|lia]. apply N.eqb_eq in X. subst x.
      destruct (lead_nl s) as [|k]; [lia|].
      cbn [two_newlines expand app]. intros [<- | [<- | I]];
        [now left | now left |].
      right. apply IH in I.
      * eapply in_skipn. exact I.
      * rewrite length_skipn. simpl in Hn. lia.
    + intros [<- | I]; [now left|]. right. apply IH in I; [exact I|].
      simpl in Hn. lia.
Qed.

Lemma clean_text_no_run (s : str) : ~ substring three_newlines (clean_text s).
Proof.
  unfold clean_text. cbv zeta. intros H.
  match type of H with
  | substring _ (strip ?y) =>
      pose proof (substring_trans _ _ _ H (strip_substring y)) as R
  end.
  apply contains_spec in R. rewrite collapse_no_run in R. discriminate.
Qed.

(** Before a text without newlines nothing is collapsed. *)
Lemma collapse_prefix (a rest : str) :
  (forall c, In c a -> N.eqb c nl = false) ->
  forall prev,
    sub_from re_newlines two_newlines prev (a ++ rest) =
    a ++ sub_from re_newlines two_newlines (prev_after prev a) rest.
Proof.
  induction a as [|x a IH]; intros H prev; [reflexivity|].
  cbn [app prev_after]. rewrite sub_from_cons, rmatch_newlines.
  cbn [lead_nl]. rewrite (H x (or_introl eq_refl)). cbn [Nat.leb].
  f_equal. apply IH. intros c I. apply H. now right.
Qed.

Lemma lead_nl_repeat (n : nat) (b : str) :
  lead_nl b = 0 -> lead_nl (repeat nl n ++ b) = n.
Proof.
  intros B. induction n as [|n IH]; simpl; [exact B|].
  now rewrite IH.
Qed.

Lemma skipn_repeat {A : Type} (x : A) (n : nat) (b : list A) :
  skipn n (repeat x n ++ b) = b.
Proof. induction n as [|n IH]; simpl; auto. Qed.

(** A run of three or more newlines in front of a text without newlines
    becomes two newlines. *)
Lemma collapse_run (n : nat) (b : str) prev :
  3 <= n -> (forall c, In c b -> N.eqb c nl = false) ->
  sub_from re_newlines two_newlines prev (repeat nl n ++ b) = nl :: nl :: b.
Proof.
  intros N3 B. destruct n as [|k]; [lia|]. cbn [repeat app].
  assert (L : lead_nl b = 0).
  { destruct b as [|x b]; [reflexivity|]. simpl.
    now rewrite (B x (or_introl eq_refl)). }
  rewrite sub_from_cons, rmatch_newlines. cbn [lead_nl].
  rewrite N.eqb_refl, (lead_nl_repeat k b L).
  destruct (3 <=? S k) eqn:T; [|apply Nat.leb_gt in T; lia].
  rewrite skipn_repeat. cbn [two_newlines expand app]. do 2 f_equal.
  apply (sub_from_untouched re_newlines two_newlines (Lit nl));
    [reflexivity | exact B].
Qed.

Lemma word_not_newline (s : str) :
  word s = true -> forall c, In c s -> N.eqb c nl = false.
Proof.
  rewrite word_spec. intros W c I. destruct (N.eqb c nl) eqn:E; [|reflexivity].
  apply N.eqb_eq in E. subst c. destruct (W nl I) as [_ S]. discriminate.
Qed.

Lemma substring_in (a b : str) (c : char) :
  substring a b -> In c a -> In c b.
Proof.
  intros [p [q ->]] I. apply in_or_app. right. apply in_or_app. now left.
Qed.

Lemma clean_text_stripped (s : str) : strip (clean_text s) = clean_text s.
Proof. unfold clean_text. cbv zeta. apply strip_strip. Qed.

(** C8. The sanitized text has no run of three newlines and neither
    starts nor ends with white space; a run of three or more newlines
    between two words comes out as exactly two. *)
Theorem no_newline_run_no_outer_space :
  (forall text : str, exists cleaned : str,
      clean_response (Some text) = Some cleaned /\
      ~ substring three_newlines cleaned /\
      (forall c rest, cleaned = c :: rest -> is_space c = false) /\
      (forall front c, cleaned = front ++ [c] -> is_space c = false)) /\
  (forall (a b : str) (n : nat),
      word a = true -> word b = true -> a <> [] -> b <> [] -> 3 <= n ->
      clean_response (Some (a ++ repeat nl n ++ b)) =
      Some (a ++ [nl; nl] ++ b)).
Proof.
  split.
  - intros text. unfold clean_response. destruct (truthy text) eqn:T.
    + exists (clean_text text). split; [reflexivity|]. split; [|split].
      * apply clean_text_no_run.
      * intros c rest E. rewrite <- clean_text_stripped in E.
        eapply strip_head. exact E.
      * intros front c E. rewrite <- clean_text_stripped in E.
        eapply strip_last. exact E.
    + apply truthy_false_iff in T. subst text. exists [].
      split; [reflexivity|]. split; [|split].
      * intros [p [q E]]. destruct p; discriminate.
      * discriminate.
      * intros front c E. destruct front; discriminate.
  - intros a b n Wa Wb Na Nb N3.
    assert (T : truthy (a ++ repeat nl n ++ b) = true).
    { destruct a; [contradiction | reflexivity]. }
    unfold clean_response. rewrite T. f_equal.
    rewrite clean_text_plain.
    + unfold sub. rewrite collapse_prefix by (apply (word_not_newline a Wa)).
      rewrite collapse_run by (assumption || apply (word_not_newline b Wb)).
      apply strip_fixed.
      * intros c rest E. destruct a as [|x a]; [contradiction|].
        inversion E; subst. apply (proj1 (word_spec _) Wa). now left.
      * intros front c E. destruct (exists_last Nb) as [b' [z ->]].
        change (a ++ nl :: nl :: b' ++ [z]) with (a ++ [nl; nl] ++ b' ++ [z]) in E.
        rewrite !app_assoc in E. apply app_inj_tail in E. destruct E as [_ <-].
        apply (proj1 (word_spec _) Wb). apply in_or_app. right. now left.
    + apply plain_spec. intros c I.
      apply in_app_or in I. destruct I as [I | I];
        [apply (proj1 (word_spec _) Wa); exact I|].
      apply in_app_or in I. destruct I as [I | I];
        [|apply (proj1 (word_spec _) Wb); exact I].
      apply repeat_spec in I. subst c. reflexivity.
Qed.

Lemma no_newline_run_no_outer_space_witness :
  clean_response (Some (py "a" ++ [nl; nl; nl; nl] ++ py "b")) =
  Some (py "a" ++ [nl; nl] ++ py "b").
Proof.
  apply (proj2 no_newline_run_no_outer_space (py "a") (py "b") 4);
    (reflexivity || discriminate || lia).
Defined.

(** C5. Sanitizing a second time changes nothing when the first pass left
    no delimiter behind; such is the case of every text that has no
    delimiter to begin with. *)
Theorem clean_response_idempotent :
  (forall text : option str,
      plain_result (clean_response text) = true ->
      clean_response (clean_response text) = clean_response text) /\
  (forall text : option str,
      plain_result text = true -> plain_result (clean_response text) = true).
Proof.
  split.
  - intros [t|]; [|reflexivity]. cbn [clean_response].
    destruct (truthy t) eqn:T.
    + cbn [plain_result clean_response]. intros P.
      destruct (truthy (clean_text t)) eqn:T'; [|reflexivity]. f_equal.
      rewrite (clean_text_plain _ P). unfold sub.
      rewrite collapse_untouched.
      * apply clean_text_stripped.
      * destruct (contains three_newlines (clean_text t)) eqn:C;
          [|reflexivity].
        apply contains_spec in C. now apply clean_text_no_run in C.
    + intros _. cbn [clean_response]. now rewrite T.
  - intros [t|]; [|reflexivity]. cbn [clean_response plain_result].
    intros P. destruct (truthy t); [|exact P].
    rewrite (clean_text_plain _ P). apply plain_spec. intros c I.
    rewrite plain_spec in P. apply P.
    apply (substring_in _ _ _ (strip_substring _)) in I.
    eapply collapse_chars; [reflexivity | exact I].
Qed.

Lemma clean_response_idempotent_witness :
  clean_response (clean_response (Some (py "**Hello** _world_"))) =
  clean_response (Some (py "**Hello** _world_")).
Proof.
  apply (proj1 clean_response_idempotent (Some (py "**Hello** _world_"))).
  vm_compute. reflexivity.
Defined.

(** Without that proviso a second pass can go further: the strip of the
    first pass brings a header mark to the start of its line. *)
Example leftover_header_mark :
  clean_response (Some (py " # a")) = Some (py "# a") /\
  clean_response (Some (py "# a")) = Some (py "a").
Proof. split; vm_compute; reflexivity. Qed.


(** * Further properties of the code *)

(** ** The prompt composer *)

(** X1. The guard of the safety check is false for every request: what
    [chat] assembles already holds the document, so the branch that
    prepends it is never taken. *)
Theorem safety_check_never_fires (data : request_json) :
  truthy (document_text data) &&
  negb (contains (document_text data) (assembled_content data)) = false.
Proof.
  destruct (truthy (document_text data)) eqn:T; [|reflexivity].
  cbn [andb]. apply negb_false_iff. apply contains_spec.
  destruct (context_ends_with_document data T) as [lead E].
  destruct (context_parts_nonempty data T) as [p [parts P]].
  unfold assembled_content. rewrite E, P, T.
  destruct (truthy (user_message data)); cbn [andb].
  - exists (lead ++ py "HEALTH RECORD DOCUMENT:" ++ [nl]).
    eexists. rewrite <- !app_assoc. reflexivity.
  - exists (lead ++ py "HEALTH RECORD DOCUMENT:" ++ [nl]), [].
    rewrite <- !app_assoc, app_nil_r. reflexivity.
Qed.

(** The content ends with the question in every branch of the assembly. *)
Lemma assembled_ends_with_question (data : request_json) :
  ends_with (user_message data) (assembled_content data).
Proof.
  unfold assembled_content, ends_with.
  destruct (context_parts data) as [|p parts].
  - exists []. reflexivity.
  - destruct (truthy (user_message data)) eqn:Q.
    + destruct (truthy (document_text data) && true);
        eexists; rewrite !app_assoc; reflexivity.
    + apply truthy_false_iff in Q. rewrite Q.
      eexists. rewrite app_nil_r. reflexivity.
Qed.

(** X2. The question is never dropped: the content of the final user
    message ends with [user_message], whatever else the request holds. *)
Theorem question_never_dropped (data : request_json) :
  ends_with (user_message data) (user_content data).
Proof.
  rewrite user_content_assembled. apply assembled_ends_with_question.
Qed.

(** X3. A question with horse information and no document goes out under
    the plain heading: the content is the horse information block, a blank
    line, and "USER QUESTION: " followed by the question. *)
Theorem question_with_metadata_only (data : request_json) :
  truthy (document_text data) = false ->
  truthy (user_message data) = true ->
  (truthy (horse_age data) || truthy (horse_breed data)
   || truthy (activity_level data)) = true ->
  user_content data =
  py "HORSE INFORMATION:" ++ [nl] ++
  join (py ", ") (metadata_parts data) ++ [nl] ++
  [nl; nl] ++ py "USER QUESTION: " ++ user_message data.
Proof.
  intros D Q M. rewrite user_content_assembled.
  unfold assembled_content, context_parts, metadata_block.
  rewrite M, (document_block_falsy data D), Q, D.
  pose proof (metadata_parts_nonempty data M) as NE.
  destruct (metadata_parts data) as [|m ms] eqn:P; [contradiction|].
  cbn [app andb]. change (join [nl; nl] [?x]) with x.
  cbn [join]. rewrite <- ?app_assoc. cbn [app]. rewrite <- ?app_assoc.
  reflexivity.
Qed.

Lemma question_with_metadata_only_witness :
  user_content metadata_and_question =
  py "HORSE INFORMATION:" ++ [nl] ++
  py "Horse Age: 8, Activity Level: Racing" ++ [nl] ++
  [nl; nl] ++ py "USER QUESTION: Is this normal?".
Proof.
  apply (question_with_metadata_only metadata_and_question); reflexivity.
Defined.

(** X4. A request that passes the validation never sends an empty user
    turn to the model. *)
Theorem accepted_content_nonempty (data : request_json) :
  rejected data = false -> user_content data <> [].
Proof.
  unfold rejected. intros R E.
  destruct (truthy (document_text data)) eqn:D.
  - destruct (safety_check_contains (document_text data)
                (assembled_content data)) as [a [b S]].
    fold (user_content data) in S. rewrite E in S.
    apply truthy_true_iff in D. apply D.
    symmetry in S. apply app_eq_nil in S. destruct S as [_ S].
    apply app_eq_nil in S. tauto.
  - destruct (truthy (user_message data)) eqn:Q; [|discriminate].
    destruct (assembled_ends_with_question data) as [lead S].
    rewrite <- user_content_assembled, E in S. symmetry in S. apply app_eq_nil in S.
    apply truthy_true_iff in Q. tauto.
Qed.

Lemma accepted_content_nonempty_witness :
  rejected (only_question "What is CK?") = false /\
  user_content (only_question "What is CK?") <> [].
Proof.
  split; [reflexivity|].
  apply (accepted_content_nonempty (only_question "What is CK?")).
  reflexivity.
Defined.

Lemma translated_not_system (e : entry) : role_of (translated e) <> system.
Proof. unfold translated. simpl. destruct (sent_by "user" e); discriminate. Qed.

Lemma translate_history_length (entries : list entry) :
  List.length (translate_history entries) <= List.length entries.
Proof.
  unfold translate_history. rewrite length_map.
  induction entries as [|e entries IH]; simpl; [lia|].
  destruct (kept e); simpl; lia.
Qed.

(** X5. The message list is the system prompt, at most ten messages taken
    from the history, none of which has the system role, and the final
    user message: a history entry cannot add a second system message. *)
Theorem messages_shape (SYSTEM_PROMPT : str) (data : request_json) :
  exists middle,
    messages SYSTEM_PROMPT data =
    [{| role_of := system; content := SYSTEM_PROMPT |}] ++ middle ++
    [{| role_of := user; content := user_content data |}] /\
    List.length middle <= 10 /\
    List.length middle <= List.length (conversation_history data) /\
    Forall (fun m => role_of m <> system) middle.
Proof.
  exists (translate_history (last_n 10 (conversation_history data))).
  destruct (last_n_suffix 10 (conversation_history data)) as [older [E L]].
  pose proof (translate_history_length
                (last_n 10 (conversation_history data))) as B.
  repeat split; try lia.
  - unfold messages. rewrite fold_add_history, <- app_assoc. reflexivity.
  - unfold translate_history. apply Forall_forall. intros m I.
    apply in_map_iff in I. destruct I as [e [<- _]].
    apply translated_not_system.
Qed.

Lemma last_n_app {A : Type} (n : nat) (older recent : list A) :
  n <= List.length recent -> last_n n (older ++ recent) = last_n n recent.
Proof.
  intros L. unfold last_n. rewrite skipn_app, length_app.
  rewrite skipn_all2 by lia. cbn [app]. f_equal. lia.
Qed.

(** X6. Entries older than the last ten have no effect: two requests whose
    histories end with the same ten or more entries, and whose contents
    agree, give the same message list. *)
Theorem older_history_ignored
    (SYSTEM_PROMPT : str) (data data' : request_json) (older : list entry) :
  conversation_history data = older ++ conversation_history data' ->
  10 <= List.length (conversation_history data') ->
  user_content data = user_content data' ->
  messages SYSTEM_PROMPT data = messages SYSTEM_PROMPT data'.
Proof.
  intros H L C. unfold messages. rewrite H, C, last_n_app by exact L.
  reflexivity.
Qed.

Lemma older_history_ignored_witness :
  messages (py "prompt") (with_history long_history) =
  messages (py "prompt") (with_history recent_history).
Proof.
  apply (older_history_ignored (py "prompt") (with_history long_history)
           (with_history recent_history)
           [said "user" "q1"; said "assistant" "a1"]).
  - reflexivity.
  - simpl. lia.
  - reflexivity.
Defined.

(** ** The sanitizer *)

Lemma take_within (ing : bool) (c : char) (s : str) (r : mres) :
  within s r -> within (c :: s) (take ing c r).
Proof.
  intros [A [B C]]. unfold within, take. cbn [fst snd].
  destruct ing; cbn [List.length]; repeat split; try lia.
  - intros x [<- | I]; [now left | right; now apply C].
  - intros x I. right. now apply C.
Qed.

Section QuantifierWithin.
Variable k : cls.
Variable ing : bool.
Variable cont : option char -> str -> option mres.
Hypothesis cont_within :
  forall prev s r, cont prev s = Some r -> within s r.

Lemma lazy_star_within prev s r :
  lazy_star k ing cont prev s = Some r -> within s r.
Proof.
  revert prev r; induction s as [|c s IH]; intros prev r; simpl.
  - destruct (cont prev []) eqn:C; [|discriminate].
    intros [= <-]. eapply cont_within; eauto.
  - destruct (cont prev (c :: s)) eqn:C.
    + intros [= <-]. eapply cont_within; eauto.
    + destruct (cls_match k c); [|discriminate].
      destruct (lazy_star k ing cont (Some c) s) eqn:L; [|discriminate].
      intros [= <-]. apply take_within. eapply IH; eauto.
Qed.

Lemma greedy_star_within prev s r :
  greedy_star k ing cont prev s = Some r -> within s r.
Proof.
  revert prev r; induction s as [|c s IH]; intros prev r; simpl.
  - apply cont_within.
  - destruct (cls_match k c); [|apply cont_within].
    destruct (greedy_star k ing cont (Some c) s) eqn:G.
    + intros [= <-]. apply take_within. eapply IH; eauto.
    + apply cont_within.
Qed.

Lemma at_least_within n prev s r :
  at_least k ing cont n prev s = Some r -> within s r.
Proof.
  revert prev s r; induction n as [|n IH]; intros prev s r; simpl.
  - apply greedy_star_within.
  - destruct s as [|c s]; [discriminate|].
    destruct (cls_match k c); [|discriminate].
    destruct (at_least k ing cont n (Some c) s) eqn:A; [|discriminate].
    intros [= <-]. apply take_within. eapply IH; eauto.
Qed.
End QuantifierWithin.

Lemma rmatch_within (p : regex) :
  forall ing prev s r, rmatch p ing prev s = Some r -> within s r.
Proof.
  induction p as [|[k [| |n]| | |] p IH]; intros ing prev s r; simpl.
  - intros [= <-]. unfold within. simpl. repeat split; try lia.
    intros x [].
  - destruct s as [|c s]; [discriminate|].
    destruct (cls_match k c); [|discriminate].
    destruct (rmatch p ing (Some c) s) eqn:M; [|discriminate].
    intros [= <-]. apply take_within. eapply IH; eauto.
  - apply lazy_star_within. apply IH.
  - apply at_least_within. apply IH.
  - destruct (at_bol prev); [apply IH | discriminate].
  - apply IH.
  - apply IH.
Qed.

(** A substitution whose replacement is never longer than the match, and
    made of characters of the text, gives a text that is no longer and has
    no new character. *)
Lemma sub_from_shrinks (p : regex) (t : template) :
  (forall prev s r, rmatch p false prev s = Some r ->
     List.length (expand t (snd r)) <= fst r /\ incl (expand t (snd r)) s) ->
  forall n s prev, List.length s <= n ->
    List.length (sub_from p t prev s) <= List.length s /\
    incl (sub_from p t prev s) s.
Proof.
  intros H. induction n as [|n IH]; intros s prev Hn.
  - destruct s; [|simpl in Hn; lia]. simp sub_from. split; [lia|].
    intros x [].
  - destruct s as [|c s]; [simp sub_from; split; [lia | intros x []]|].
    rewrite sub_from_cons.
    destruct (rmatch p false prev (c :: s)) as [[[|k] g]|] eqn:M.
    + destruct (IH s (Some c)) as [L I]; [simpl in Hn; lia|].
      split; [simpl; lia|].
      intros x [<- | X]; [now left | right; now apply I].
    + destruct (H _ _ _ M) as [E I]. cbn [fst snd] in E, I.
      destruct (rmatch_within _ _ _ _ _ M) as [W _]. cbn [fst] in W.
      simpl in W, Hn.
      destruct (IH (skipn k s) (prev_after (Some c) (firstn k s)))
        as [L J]; [rewrite length_skipn; lia|].
      rewrite length_skipn in L. split.
      * rewrite length_app. simpl. lia.
      * intros x X. apply in_app_or in X. destruct X as [X | X].
        -- now apply I.
        -- right. eapply in_skipn. apply J. exact X.
    + destruct (IH s (Some c)) as [L I]; [simpl in Hn; lia|].
      split; [simpl; lia|].
      intros x [<- | X]; [now left | right; now apply I].
Qed.

Lemma sub_group1_shrinks (p : regex) (s : str) :
  List.length (sub p group1 s) <= List.length s /\ incl (sub p group1 s) s.
Proof.
  apply (sub_from_shrinks p group1) with (n := List.length s); [|lia].
  intros prev s' r M. destruct (rmatch_within _ _ _ _ _ M) as [_ [B C]].
  cbn [group1 expand]. rewrite app_nil_r. tauto.
Qed.

Lemma sub_nothing_shrinks (p : regex) (s : str) :
  List.length (sub p nothing s) <= List.length s /\ incl (sub p nothing s) s.
Proof.
  apply (sub_from_shrinks p nothing) with (n := List.length s); [|lia].
  intros prev s' r M. cbn [nothing expand]. split; [simpl; lia|].
  intros x [].
Qed.

Lemma sub_newlines_shrinks (s : str) :
  List.length (sub re_newlines two_newlines s) <= List.length s /\
  incl (sub re_newlines two_newlines s) s.
Proof.
  apply (sub_from_shrinks re_newlines two_newlines)
    with (n := List.length s); [|lia].
  intros prev s' r M. cbn [two_newlines expand]. split.
  - apply min_len_le in M. simpl in *. lia.
  - destruct (leading_head re_newlines (Lit nl) eq_refl _ _ _ _ M)
      as [c [rest [-> K]]].
    simpl in K. apply N.eqb_eq in K. subst c.
    intros x [<- | [<- | []]]; now left.
Qed.

Lemma strip_shrinks (s : str) :
  List.length (strip s) <= List.length s /\ incl (strip s) s.
Proof.
  destruct (strip_substring s) as [a [b E]]. split.
  - rewrite E at 2. rewrite !length_app. lia.
  - intros x I. rewrite E. apply in_or_app. right. apply in_or_app. now left.
Qed.

Lemma shrinks_trans (a b c : str) :
  List.length a <= List.length b /\ incl a b ->
  List.length b <= List.length c /\ incl b c ->
  List.length a <= List.length c /\ incl a c.
Proof.
  intros [L1 I1] [L2 I2]. split; [lia|]. intros x X. auto.
Qed.

Lemma clean_text_shrinks (text : str) :
  List.length (clean_text text) <= List.length text /\
  incl (clean_text text) text.
Proof.
  unfold clean_text. cbv zeta.
  eapply shrinks_trans; [apply strip_shrinks|].
  eapply shrinks_trans; [apply sub_newlines_shrinks|].
  eapply shrinks_trans; [apply sub_group1_shrinks|].
  eapply shrinks_trans; [apply sub_group1_shrinks|].
  eapply shrinks_trans; [apply sub_nothing_shrinks|].
  eapply shrinks_trans; [apply sub_nothing_shrinks|].
  eapply shrinks_trans; [apply sub_group1_shrinks|].
  eapply shrinks_trans; [apply sub_group1_shrinks|].
  eapply shrinks_trans; [apply sub_group1_shrinks|].
  apply sub_group1_shrinks.
Qed.

(** X7. The sanitizer only removes: its result is never longer than the
    response it was given, and every character of the result is a
    character of that response. *)
Theorem sanitizer_only_removes (text : str) :
  exists cleaned : str,
    clean_response (Some text) = Some cleaned /\
    List.length cleaned <= List.length text /\
    (forall c, In c cleaned -> In c text).
Proof.
  unfold clean_response. destruct (truthy text).
  - exists (clean_text text). split; [reflexivity|].
    apply clean_text_shrinks.
  - exists text. split; [reflexivity|]. split; [lia | auto].
Qed.

Lemma space_not_delimiter (c : char) :
  is_space c = true -> is_delimiter c = false.
Proof.
  intros S. destruct (is_delimiter c) eqn:D; [|reflexivity].
  unfold is_delimiter in D. rewrite !orb_true_iff, !N.eqb_eq in D.
  destruct D as [[[[-> | ->] | ->] | ->] | ->]; discriminate S.
Qed.

Lemma lstrip_blank (s : str) :
  (forall c, In c s -> is_space c = true) -> lstrip s = [].
Proof.
  induction s as [|c s IH]; intros H; simpl; [reflexivity|].
  rewrite (H c (or_introl eq_refl)). apply IH. intros x X. apply H. now right.
Qed.

(** X9. A response made of white space only is sanitized to the empty
    string. *)
Theorem blank_response_cleans_to_empty (text : str) :
  forallb is_space text = true -> clean_response (Some text) = Some [].
Proof.
  intros B. rewrite forallb_forall in B. unfold clean_response.
  destruct (truthy text) eqn:T; [|apply truthy_false_iff in T; now subst].
  f_equal. rewrite clean_text_plain.
  - unfold strip. rewrite lstrip_blank; [reflexivity|].
    intros c I. apply B. apply (proj2 (sub_newlines_shrinks text) c I).
  - apply plain_spec. intros c I. apply space_not_delimiter. now apply B.
Qed.

Lemma blank_response_cleans_to_empty_witness :
  clean_response (Some ([nl; nl; nl] ++ py "   " ++ [nl])) = Some [].
Proof.
  apply (blank_response_cleans_to_empty ([nl; nl; nl] ++ py "   " ++ [nl])).
  reflexivity.
Defined.



(** ** The two underscore rules *)

Lemma closing_underscore prev (s : str) :
  rmatch [Close; Chr underscore Once] true prev s =
  match s with
  | c :: _ => if N.eqb c (ch "_") then Some (1, []) else None
  | [] => None
  end.
Proof.
  destruct s as [|c s]; [reflexivity|]. cbn [rmatch cls_match underscore].
  destruct (N.eqb c (ch "_")); reflexivity.
Qed.

(** The lazy star of [_(.*?)_] stops at the first underscore, so the group
    holds none. *)
Lemma lazy_group_no_underscore (s : str) :
  forall prev r,
    lazy_star Dot true (rmatch [Close; Chr underscore Once] true) prev s
    = Some r ->
    ~ In (ch "_") (snd r).
Proof.
  induction s as [|c s IH]; intros prev r; cbn [lazy_star];
    rewrite closing_underscore.
  - discriminate.
  - destruct (N.eqb c (ch "_")) eqn:E.
    + intros [= <-]. simpl. tauto.
    + destruct (cls_match Dot c); [|discriminate].
      destruct (lazy_star Dot true _ (Some c) s) as [r'|] eqn:L;
        [|discriminate].
      intros [= <-]. cbn [take snd]. intros [H | H].
      * subst c. rewrite N.eqb_refl in E. discriminate.
      * exact (IH _ _ L H).
Qed.

Lemma italic_underscore_group prev (s : str) (r : mres) :
  rmatch re_italic_underscore false prev s = Some r ->
  ~ In (ch "_") (snd r).
Proof.
  unfold re_italic_underscore. cbn [rmatch].
  destruct s as [|c s]; [discriminate|].
  destruct (cls_match underscore c); [|discriminate].
  destruct (lazy_star Dot true _ (Some c) s) as [r'|] eqn:L; [|discriminate].
  intros [= <-]. cbn [take snd]. exact (lazy_group_no_underscore _ _ _ L).
Qed.

(** Two underscores in a row are an emphasis around nothing. *)
Lemma italic_underscore_double prev (s : str) :
  rmatch re_italic_underscore false prev (ch "_" :: ch "_" :: s) =
  Some (2, []).
Proof. reflexivity. Qed.

Lemma italic_underscore_head prev (s : str) :
  starts_with [ch "_"] s = false ->
  starts_with [ch "_"] (sub_from re_italic_underscore group1 prev s) = false.
Proof.
  destruct s as [|c s]; intros H; [now simp sub_from|].
  rewrite sub_from_cons.
  destruct (rmatch re_italic_underscore false prev (c :: s)) as [r|] eqn:M.
  - destruct (leading_head re_italic_underscore underscore eq_refl
                _ _ _ _ M) as [c' [s' [E K]]].
    inversion E; subst c' s'. cbn [cls_match underscore] in K.
    cbn [starts_with] in H. rewrite N.eqb_sym, K in H. discriminate.
  - exact H.
Qed.

Lemma contains_after_group (g x : str) :
  ~ In (ch "_") g ->
  contains two_underscores (g ++ x) = contains two_underscores x.
Proof.
  induction g as [|c g IH]; intros H; [reflexivity|].
  cbn [app contains]. rewrite IH by (intros I; apply H; now right).
  unfold two_underscores. cbn [starts_with].
  destruct (N.eqb (ch "_") c) eqn:E; [|reflexivity].
  apply N.eqb_eq in E. destruct H. now left.
Qed.

(** After [_(.*?)_] no two underscores are side by side. *)
Lemma italic_underscore_no_double (n : nat) :
  forall s prev, List.length s <= n ->
    contains two_underscores (sub_from re_italic_underscore group1 prev s)
    = false.
Proof.
  induction n as [|n IH]; intros s prev Hn.
  - destruct s; [|simpl in Hn; lia]. now simp sub_from.
  - destruct s as [|c s]; [now simp sub_from|].
    assert (Copy :
      forall r, rmatch re_italic_underscore false prev (c :: s) = r ->
        (forall k g, r <> Some (S k, g)) ->
        contains two_underscores
          (c :: sub_from re_italic_underscore group1 (Some c) s) = false).
    { intros r M NoMatch. cbn [contains]. rewrite IH by (simpl in Hn; lia).
      rewrite orb_false_r. unfold two_underscores. cbn [starts_with].
      destruct (N.eqb (ch "_") c) eqn:E; [|reflexivity]. cbn [andb].
      apply N.eqb_eq in E. subst c.
      apply italic_underscore_head. destruct s as [|x s]; [reflexivity|].
      cbn [starts_with]. destruct (N.eqb (ch "_") x) eqn:X; [|reflexivity].
      apply N.eqb_eq in X. subst x.
      rewrite italic_underscore_double in M. subst r.
      destruct (NoMatch 1 [] eq_refl). }
    rewrite sub_from_cons.
    destruct (rmatch re_italic_underscore false prev (c :: s))
      as [[[|k] g]|] eqn:M.
    + apply (Copy _ eq_refl). discriminate.
    + pose proof (italic_underscore_group _ _ _ M) as G. cbn [snd] in G.
      destruct (rmatch_within _ _ _ _ _ M) as [W _]. cbn [fst] in W.
      cbn [group1 expand]. rewrite app_nil_r, contains_after_group by exact G.
      apply IH. rewrite length_skipn. simpl in Hn, W. lia.
    + apply (Copy _ eq_refl). discriminate.
Qed.

Lemma bold_underscores_head prev (s : str) (r : mres) :
  rmatch re_bold_underscores false prev s = Some r ->
  starts_with two_underscores s = true.
Proof.
  unfold re_bold_underscores, two_underscores. cbn [rmatch starts_with].
  destruct s as [|a s]; [discriminate|].
  cbn [cls_match underscore]. rewrite (N.eqb_sym (ch "_") a).
  destruct (N.eqb a (ch "_")); [|discriminate].
  destruct s as [|b s]; [discriminate|].
  rewrite (N.eqb_sym (ch "_") b).
  destruct (N.eqb b (ch "_")); [reflexivity | discriminate].
Qed.

Lemma bold_underscores_untouched (t : template) (s : str) :
  contains two_underscores s = false ->
  forall prev, sub_from re_bold_underscores t prev s = s.
Proof.
  induction s as [|c s IH]; intros H prev; [now simp sub_from|].
  cbn [contains] in H. apply orb_false_iff in H. destruct H as [H1 H2].
  rewrite sub_from_cons.
  destruct (rmatch re_bold_underscores false prev (c :: s)) as [r|] eqn:M.
  - apply bold_underscores_head in M. rewrite M in H1. discriminate.
  - f_equal. now apply IH.
Qed.

(** X8. The rule for [__bold__] never changes the text: the rule for
    [_italic_] that runs before it leaves no two underscores side by
    side, so the fourth substitution has nothing to match. *)
Theorem bold_underscores_rule_is_idle (text : str) :
  ~ substring two_underscores (sub re_italic_underscore group1 text) /\
  sub re_bold_underscores group1 (sub re_italic_underscore group1 text) =
  sub re_italic_underscore group1 text.
Proof.
  pose proof (italic_underscore_no_double (List.length text) text None
                (le_n _)) as N.
  split.
  - intros S. apply contains_spec in S. unfold sub in S.
    rewrite N in S. discriminate.
  - unfold sub at 1. apply bold_underscores_untouched. exact N.
Qed.

(** ** Matching around a run of characters *)

Lemma takes_nil (ing : bool) (r : mres) : takes ing [] r = r.
Proof. destruct r as [n g]. unfold takes. destruct ing; reflexivity. Qed.

Lemma take_takes (ing : bool) (c : char) (w : str) (r : mres) :
  take ing c (takes ing w r) = takes ing (c :: w) r.
Proof. unfold take, takes. destruct ing; reflexivity. Qed.

Section Runs.
Variable k : cls.
Variable ing : bool.
Variable cont : option char -> str -> option mres.
Variable w : str.
Hypothesis in_class : forall c, In c w -> cls_match k c = true.

(** A lazy star walks over a run on which the rest of the pattern fails. *)
Lemma lazy_star_run (rest : str) :
  (forall c x prev, In c w -> cont prev (c :: x) = None) ->
  forall prev,
    lazy_star k ing cont prev (w ++ rest) =
    option_map (takes ing w) (lazy_star k ing cont (prev_after prev w) rest).
Proof.
  revert in_class. induction w as [|c w' IH]; intros K F prev.
  - cbn [app prev_after]. destruct (lazy_star k ing cont prev rest);
      [cbn [option_map]; now rewrite takes_nil | reflexivity].
  - cbn [app prev_after lazy_star].
    rewrite (F c _ prev (or_introl eq_refl)), (K c (or_introl eq_refl)).
    rewrite IH.
    + destruct (lazy_star k ing cont (prev_after (Some c) w') rest);
        [cbn [option_map]; now rewrite take_takes | reflexivity].
    + intros x X. apply K. now right.
    + intros x y q X. apply F. now right.
Qed.

(** A greedy star takes a whole run when the match succeeds after it. *)
Lemma greedy_star_run (rest : str) (r : mres) :
  forall prev,
    greedy_star k ing cont (prev_after prev w) rest = Some r ->
    greedy_star k ing cont prev (w ++ rest) = Some (takes ing w r).
Proof.
  revert in_class. induction w as [|c w' IH]; intros K prev G.
  - cbn [app]. now rewrite takes_nil.
  - cbn [app greedy_star]. rewrite (K c (or_introl eq_refl)).
    rewrite (IH (fun x X => K x (or_intror X)) (Some c) G).
    now rewrite take_takes.
Qed.
End Runs.

Lemma skipn_app_length {A : Type} (a b : list A) :
  skipn (List.length a) (a ++ b) = b.
Proof. induction a; simpl; auto. Qed.

Lemma firstn_app_length {A : Type} (a b : list A) :
  firstn (List.length a) (a ++ b) = a.
Proof. induction a; simpl; [reflexivity | now f_equal]. Qed.

(** A match at the current position is replaced and the scan goes on
    behind it. *)
Lemma sub_from_replace (p : regex) (t : template) prev
    (c : char) (tail rest g : str) :
  rmatch p false prev (c :: tail ++ rest) = Some (S (List.length tail), g) ->
  sub_from p t prev (c :: tail ++ rest) =
  expand t g ++ sub_from p t (prev_after (Some c) tail) rest.
Proof.
  intros M. rewrite sub_from_cons, M.
  now rewrite skipn_app_length, firstn_app_length.
Qed.

Lemma sub_from_copy (p : regex) (t : template) prev (c : char) (s : str) :
  rmatch p false prev (c :: s) = None ->
  sub_from p t prev (c :: s) = c :: sub_from p t (Some c) s.
Proof. intros M. now rewrite sub_from_cons, M. Qed.

(** Before a run that cannot start a match nothing is replaced. *)
Lemma sub_from_prefix (p : regex) (t : template) (k : cls) (a rest : str) :
  leading p = Some k ->
  (forall c, In c a -> cls_match k c = false) ->
  forall prev,
    sub_from p t prev (a ++ rest) =
    a ++ sub_from p t (prev_after prev a) rest.
Proof.
  intros L. induction a as [|x a IH]; intros H prev; [reflexivity|].
  cbn [app prev_after]. rewrite sub_from_copy.
  - f_equal. apply IH. intros c I. apply H. now right.
  - destruct (rmatch p false prev (x :: a ++ rest)) as [r|] eqn:M;
      [|reflexivity].
    destruct (leading_head p k L _ _ _ _ M) as [c' [s' [E K]]].
    inversion E; subst. rewrite H in K; [discriminate | now left].
Qed.

(** A pattern that opens with the same literal twice leaves alone a text
    in which that character never comes twice in a row. *)
Lemma double_literal_untouched (x : char) (p : regex) (t : template) (s : str) :
  contains [x; x] s = false ->
  forall prev,
    sub_from (Chr (Lit x) Once :: Chr (Lit x) Once :: p) t prev s = s.
Proof.
  induction s as [|c s IH]; intros H prev; [now simp sub_from|].
  cbn [contains] in H. apply orb_false_iff in H. destruct H as [H1 H2].
  rewrite sub_from_copy; [f_equal; now apply IH|].
  cbn [rmatch cls_match]. cbn [starts_with] in H1.
  rewrite (N.eqb_sym x c) in H1.
  destruct (N.eqb c x); [|reflexivity]. cbn [andb] in H1.
  destruct s as [|d s]; [reflexivity|].
  rewrite (N.eqb_sym x d), andb_true_r in H1. now rewrite H1.
Qed.

Lemma contains_pair_skip (x : char) (g rest : str) :
  ~ In x g -> contains [x; x] (g ++ rest) = contains [x; x] rest.
Proof.
  induction g as [|c g IH]; intros H; [reflexivity|].
  cbn [app contains]. rewrite IH by (intros I; apply H; now right).
  cbn [starts_with]. destruct (N.eqb x c) eqn:E; [|reflexivity].
  apply N.eqb_eq in E. destruct H. now left.
Qed.

Lemma contains_pair_single (x : char) (rest : str) :
  starts_with [x] rest = false ->
  contains [x; x] (x :: rest) = contains [x; x] rest.
Proof.
  intros H. cbn [contains]. cbn [starts_with] in *.
  destruct rest as [|d rest]; [now rewrite andb_false_r|].
  rewrite andb_true_r in H. now rewrite H, andb_false_r.
Qed.

(** ** Words *)

Lemma word_no_mark (x : char) (w : str) :
  word w = true -> is_delimiter x || is_space x = true -> ~ In x w.
Proof.
  rewrite word_spec. intros W M I. destruct (W x I) as [D S].
  rewrite D, S in M. discriminate.
Qed.

Lemma word_app (a b : str) : word (a ++ b) = word a && word b.
Proof. unfold word. apply forallb_app. Qed.

(** No rule of the sanitizer finds anything in a word. *)
Lemma word_sub_from (p : regex) (t : template) (w : str) :
  opens_with_mark p = true -> word w = true ->
  forall prev, sub_from p t prev w = w.
Proof.
  unfold opens_with_mark. intros O W prev.
  destruct (leading p) as [[x| | | |]|] eqn:L; try discriminate.
  apply (sub_from_untouched p t (Lit x) L).
  intros c I. cbn [cls_match]. destruct (N.eqb c x) eqn:E; [|reflexivity].
  apply N.eqb_eq in E. subst c. destruct (word_no_mark x w W O I).
Qed.

Lemma word_sub (p : regex) (t : template) (w : str) :
  opens_with_mark p = true -> word w = true -> sub p t w = w.
Proof. intros O W. apply word_sub_from; assumption. Qed.

Lemma word_strip (w : str) : word w = true -> strip w = w.
Proof.
  rewrite word_spec. intros W. apply strip_fixed.
  - intros c rest ->. apply W. now left.
  - intros front c ->. apply W. apply in_or_app. right. now left.
Qed.

Lemma class_absent (x : char) (s : str) :
  ~ In x s -> forall c, In c s -> cls_match (Lit x) c = false.
Proof.
  intros F c I. cbn [cls_match]. destruct (N.eqb c x) eqn:E; [|reflexivity].
  apply N.eqb_eq in E. subst c. contradiction.
Qed.

(** The matcher, one item at a time. *)
Lemma rmatch_literal (x : char) (p : regex) ing prev (s : str) :
  rmatch (Chr (Lit x) Once :: p) ing prev (x :: s) =
  option_map (take ing x) (rmatch p ing (Some x) s).
Proof. cbn [rmatch cls_match]. now rewrite N.eqb_refl. Qed.

Lemma rmatch_open (p : regex) ing prev (s : str) :
  rmatch (Open :: p) ing prev s = rmatch p true prev s.
Proof. reflexivity. Qed.

Lemma rmatch_lazy (k : cls) (p : regex) ing prev (s : str) :
  rmatch (Chr k LazyStar :: p) ing prev s =
  lazy_star k ing (rmatch p ing) prev s.
Proof. reflexivity. Qed.

Lemma rmatch_greedy (k : cls) (n : nat) (p : regex) ing prev (s : str) :
  rmatch (Chr k (Greedy n) :: p) ing prev s =
  at_least k ing (rmatch p ing) n prev s.
Proof. reflexivity. Qed.

(** The rules on a text with one marked passage, the mark being any
    character [x] and the passage free of it and of newlines. *)
Section Marks.
Variable x : char.

Lemma closing_single prev (c : char) (s : str) :
  rmatch [Close; Chr (Lit x) Once] true prev (c :: s) =
  if N.eqb c x then Some (1, []) else None.
Proof. cbn [rmatch cls_match]. destruct (N.eqb c x); reflexivity. Qed.

Lemma single_mark_match prev (w rest : str) :
  ~ In x w -> ~ In nl w ->
  rmatch [Chr (Lit x) Once; Open; Chr Dot LazyStar; Close; Chr (Lit x) Once]
    false prev (x :: (w ++ [x]) ++ rest) =
  Some (S (List.length (w ++ [x])), w).
Proof.
  intros X L. rewrite rmatch_literal, rmatch_open, rmatch_lazy, <- app_assoc.
  rewrite lazy_star_run.
  - cbn [app lazy_star]. rewrite closing_single, N.eqb_refl.
    cbn [option_map]. unfold takes, take. cbn [fst snd].
    rewrite length_app, app_nil_r. reflexivity.
  - intros c I. cbn [cls_match]. apply negb_true_iff.
    destruct (N.eqb c nl) eqn:E; [|reflexivity].
    apply N.eqb_eq in E. subst c. contradiction.
  - intros c y q I. rewrite closing_single.
    destruct (N.eqb c x) eqn:E; [|reflexivity].
    apply N.eqb_eq in E. subst c. contradiction.
Qed.

Lemma closing_double prev (c : char) (s : str) :
  rmatch [Close; Chr (Lit x) Once; Chr (Lit x) Once] true prev (c :: s) =
  if N.eqb c x
  then match s with
       | d :: _ => if N.eqb d x then Some (2, []) else None
       | [] => None
       end
  else None.
Proof.
  cbn [rmatch cls_match]. destruct (N.eqb c x); [|reflexivity].
  destruct s as [|d s]; [reflexivity|]. destruct (N.eqb d x); reflexivity.
Qed.

Lemma double_mark_match prev (w rest : str) :
  ~ In x w -> ~ In nl w ->
  rmatch [Chr (Lit x) Once; Chr (Lit x) Once; Open; Chr Dot LazyStar; Close;
          Chr (Lit x) Once; Chr (Lit x) Once]
    false prev (x :: (x :: w ++ [x; x]) ++ rest) =
  Some (S (List.length (x :: w ++ [x; x])), w).
Proof.
  intros X L. cbn [app].
  rewrite !rmatch_literal, rmatch_open, rmatch_lazy, <- app_assoc.
  rewrite lazy_star_run.
  - cbn [app lazy_star]. rewrite closing_double, !N.eqb_refl.
    cbn [option_map]. unfold takes, take. cbn [fst snd List.length].
    rewrite length_app, app_nil_r. reflexivity.
  - intros c I. cbn [cls_match]. apply negb_true_iff.
    destruct (N.eqb c nl) eqn:E; [|reflexivity].
    apply N.eqb_eq in E. subst c. contradiction.
  - intros c y q I. rewrite closing_double.
    destruct (N.eqb c x) eqn:E; [|reflexivity].
    apply N.eqb_eq in E. subst c. contradiction.
Qed.

Variables a w b : str.
Hypothesis a_free : ~ In x a.
Hypothesis w_free : ~ In x w.
Hypothesis w_line : ~ In nl w.
Hypothesis b_free : ~ In x b.

(** [x(.*?)x] unwraps a passage between single marks. *)
Lemma sub_single_mark :
  sub [Chr (Lit x) Once; Open; Chr Dot LazyStar; Close; Chr (Lit x) Once]
    group1 (a ++ [x] ++ w ++ [x] ++ b) =
  a ++ w ++ b.
Proof.
  unfold sub. rewrite (sub_from_prefix _ _ (Lit x)); [|reflexivity|].
  - f_equal. change ([x] ++ w ++ [x] ++ b) with (x :: w ++ [x] ++ b).
    rewrite (app_assoc w [x] b).
    rewrite (sub_from_replace _ _ _ _ _ _ _ (single_mark_match _ w b w_free w_line)).
    cbn [group1 expand]. rewrite app_nil_r. f_equal.
    apply (sub_from_untouched _ _ (Lit x)); [reflexivity|].
    now apply class_absent.
  - now apply class_absent.
Qed.

(** [xx(.*?)xx] unwraps a passage between double marks. *)
Lemma sub_double_mark :
  sub [Chr (Lit x) Once; Chr (Lit x) Once; Open; Chr Dot LazyStar; Close;
       Chr (Lit x) Once; Chr (Lit x) Once]
    group1 (a ++ [x; x] ++ w ++ [x; x] ++ b) =
  a ++ w ++ b.
Proof.
  unfold sub. rewrite (sub_from_prefix _ _ (Lit x)); [|reflexivity|].
  - f_equal.
    change ([x; x] ++ w ++ [x; x] ++ b) with (x :: x :: w ++ [x; x] ++ b).
    rewrite (app_assoc w [x; x] b).
    change (x :: x :: (w ++ [x; x]) ++ b)
      with (x :: (x :: w ++ [x; x]) ++ b).
    rewrite (sub_from_replace _ _ _ _ _ _ _ (double_mark_match _ w b w_free w_line)).
    cbn [group1 expand]. rewrite app_nil_r. f_equal.
    apply (sub_from_untouched _ _ (Lit x)); [reflexivity|].
    now apply class_absent.
  - now apply class_absent.
Qed.

(** A pattern that opens with a double mark leaves single marks alone. *)
Lemma sub_double_idle (p : regex) (t : template) :
  w <> [] ->
  sub (Chr (Lit x) Once :: Chr (Lit x) Once :: p) t
    (a ++ [x] ++ w ++ [x] ++ b) =
  a ++ [x] ++ w ++ [x] ++ b.
Proof.
  intros NE. unfold sub. apply double_literal_untouched.
  assert (S : forall s rest, s <> [] -> ~ In x s ->
                starts_with [x] (s ++ rest) = false).
  { intros s rest N F. destruct s as [|c s]; [contradiction|].
    cbn [app starts_with]. rewrite andb_true_r.
    destruct (N.eqb x c) eqn:E; [|reflexivity].
    apply N.eqb_eq in E. destruct F. now left. }
  rewrite contains_pair_skip by exact a_free. cbn [app].
  rewrite contains_pair_single by (apply S; assumption).
  rewrite contains_pair_skip by exact w_free. cbn [app].
  rewrite contains_pair_single.
  - rewrite <- (app_nil_r b). rewrite contains_pair_skip by exact b_free.
    reflexivity.
  - destruct b as [|c b']; [reflexivity|]. apply (S (c :: b') []) in b_free;
      [|discriminate]. now rewrite app_nil_r in b_free.
Qed.
End Marks.

Lemma truthy_middle (a m s : str) :
  m <> [] -> truthy (a ++ m ++ s) = true.
Proof. intros M. destruct a; [destruct m; [contradiction|] |]; reflexivity. Qed.

Lemma free_sub (p : regex) (t : template) (x : char) (s : str) :
  leading p = Some (Lit x) -> ~ In x s -> sub p t s = s.
Proof.
  intros L F. unfold sub. apply (sub_from_untouched p t (Lit x) L).
  intros c I. cbn [cls_match]. destruct (N.eqb c x) eqn:E; [|reflexivity].
  apply N.eqb_eq in E. subst c. contradiction.
Qed.

(** Every later rule and the final strip leave a word as it is. *)
Ltac word_rules r W :=
  repeat match goal with
         | |- context [sub ?p ?t r] => rewrite (word_sub p t r eq_refl W)
         end;
  apply (word_strip r W).

Section Emphasis.
Variables a w b : str.
Hypothesis a_word : word a = true.
Hypothesis w_word : word w = true.
Hypothesis b_word : word b = true.
Hypothesis w_nonempty : w <> [].

Lemma passage_word : word (a ++ w ++ b) = true.
Proof. rewrite !word_app, a_word, w_word, b_word. reflexivity. Qed.

Lemma passage_free (x : char) :
  is_delimiter x || is_space x = true ->
  ~ In x a /\ ~ In x w /\ ~ In x b.
Proof. intros M. repeat split; apply word_no_mark; assumption. Qed.

Lemma marked_free (x y : char) (m : str) :
  is_delimiter x || is_space x = true -> ~ In x m ->
  ~ In x (a ++ m ++ w ++ m ++ b).
Proof.
  intros M F. destruct (passage_free x M) as [A [W B]].
  rewrite !in_app_iff. tauto.
Qed.

Lemma sub_underscore_pairs :
  sub re_italic_underscore group1
    (a ++ py "__" ++ w ++ py "__" ++ b) =
  a ++ w ++ b.
Proof.
  destruct (passage_free (ch "_") eq_refl) as [A [W B]].
  assert (U : forall s, ~ In (ch "_") s ->
                forall c, In c s -> cls_match underscore c = false).
  { intros s F c I. cbn [cls_match underscore].
    destruct (N.eqb c (ch "_")) eqn:E; [|reflexivity].
    apply N.eqb_eq in E. subst c. contradiction. }
  assert (R : forall prev rest,
                sub_from re_italic_underscore group1 prev
                  (py "__" ++ rest) =
                sub_from re_italic_underscore group1 (Some (ch "_")) rest).
  { intros prev rest.
    exact (sub_from_replace re_italic_underscore group1 prev (ch "_")
             [ch "_"] rest [] (italic_underscore_double prev rest)). }
  unfold sub.
  rewrite (sub_from_prefix re_italic_underscore group1 underscore a _
             eq_refl (U a A)), R.
  rewrite (sub_from_prefix re_italic_underscore group1 underscore w _
             eq_refl (U w W)), R.
  rewrite (sub_from_untouched re_italic_underscore group1 underscore
             eq_refl b _ (U b B)).
  reflexivity.
Qed.

(** X10. Emphasis marks around a word are removed and the word is kept,
    for each of the four forms, in the middle of a line or at its ends. *)
Theorem emphasis_unwraps :
  clean_response (Some (a ++ py "**" ++ w ++ py "**" ++ b)) =
  Some (a ++ w ++ b) /\
  clean_response (Some (a ++ py "*" ++ w ++ py "*" ++ b)) =
  Some (a ++ w ++ b) /\
  clean_response (Some (a ++ py "_" ++ w ++ py "_" ++ b)) =
  Some (a ++ w ++ b) /\
  clean_response (Some (a ++ py "__" ++ w ++ py "__" ++ b)) =
  Some (a ++ w ++ b).
Proof.
  pose proof passage_word as P.
  destruct (passage_free (ch "*") eq_refl) as [As [Ws Bs]].
  destruct (passage_free (ch "_") eq_refl) as [Au [Wu Bu]].
  destruct (passage_free nl eq_refl) as [_ [Wn _]].
  assert (Stars : sub re_bold_stars group1
                    (a ++ py "**" ++ w ++ py "**" ++ b) = a ++ w ++ b)
    by exact (sub_double_mark (ch "*") a w b As Ws Wn Bs).
  assert (Idle : sub re_bold_stars group1
                   (a ++ py "*" ++ w ++ py "*" ++ b) =
                 a ++ py "*" ++ w ++ py "*" ++ b)
    by exact (sub_double_idle (ch "*") a w b As Ws Bs _ group1 w_nonempty).
  assert (Star : sub re_italic_star group1
                   (a ++ py "*" ++ w ++ py "*" ++ b) = a ++ w ++ b)
    by exact (sub_single_mark (ch "*") a w b As Ws Wn Bs).
  assert (Under : sub re_italic_underscore group1
                    (a ++ py "_" ++ w ++ py "_" ++ b) = a ++ w ++ b)
    by exact (sub_single_mark (ch "_") a w b Au Wu Wn Bu).
  assert (NoStar : forall m, ~ In (ch "*") m ->
                     ~ In (ch "*") (a ++ m ++ w ++ m ++ b))
    by (intros m; apply (marked_free (ch "*") (ch "*") m eq_refl)).
  unfold clean_response. rewrite !truthy_middle by discriminate.
  unfold clean_text. cbv zeta.
  split; [|split; [|split]]; f_equal.
  - rewrite Stars. word_rules (a ++ w ++ b) P.
  - rewrite Idle, Star. word_rules (a ++ w ++ b) P.
  - rewrite (free_sub re_bold_stars group1 (ch "*")), (free_sub re_italic_star group1 (ch "*")), Under;
      try reflexivity; try (apply NoStar; simpl; intuition discriminate).
    word_rules (a ++ w ++ b) P.
  - rewrite (free_sub re_bold_stars group1 (ch "*")), (free_sub re_italic_star group1 (ch "*")), sub_underscore_pairs;
      try reflexivity; try (apply NoStar; simpl; intuition discriminate).
    word_rules (a ++ w ++ b) P.
Qed.
End Emphasis.

Lemma emphasis_unwraps_witness :
  clean_response (Some (py "CK" ++ py "**" ++ py "high" ++ py "**" ++ py "!"))
  = Some (py "CK" ++ py "high" ++ py "!").
Proof.
  apply (emphasis_unwraps (py "CK") (py "high") (py "!"));
    (reflexivity || discriminate).
Defined.

(** ** Code spans, fences and links *)

Lemma greedy_star_stop (k : cls) ing cont prev (s : str) :
  starts_with_class k s = false ->
  greedy_star k ing cont prev s = cont prev s.
Proof.
  destruct s as [|c s]; [reflexivity|]. cbn [starts_with_class greedy_star].
  now intros ->.
Qed.

(** A greedy repetition with one mandatory character takes a non-empty
    run after which the class fails and the rest of the pattern matches. *)
Lemma at_least_one_run (k : cls) ing cont (w rest : str) (r : mres) prev :
  w <> [] ->
  (forall c, In c w -> cls_match k c = true) ->
  starts_with_class k rest = false ->
  cont (prev_after prev w) rest = Some r ->
  at_least k ing cont 1 prev (w ++ rest) = Some (takes ing w r).
Proof.
  intros NE K S C. destruct w as [|c w]; [contradiction|].
  cbn [app at_least]. rewrite (K c (or_introl eq_refl)).
  rewrite (greedy_star_run k ing cont w (fun x X => K x (or_intror X))
             rest r (Some c)).
  - cbn [option_map]. now rewrite take_takes.
  - rewrite greedy_star_stop by exact S. exact C.
Qed.

Lemma not_chr_class (x : char) (s : str) :
  ~ In x s -> forall c, In c s -> cls_match (NotChr x) c = true.
Proof.
  intros F c I. cbn [cls_match]. apply negb_true_iff.
  destruct (N.eqb c x) eqn:E; [|reflexivity].
  apply N.eqb_eq in E. subst c. contradiction.
Qed.

Lemma not_chr_stop (x : char) (s : str) :
  starts_with_class (NotChr x) (x :: s) = false.
Proof. cbn [starts_with_class cls_match]. now rewrite N.eqb_refl. Qed.

Lemma inline_code_match prev (w rest : str) :
  w <> [] -> ~ In (ch "`") w ->
  rmatch re_inline_code false prev (ch "`" :: (w ++ [ch "`"]) ++ rest) =
  Some (S (List.length (w ++ [ch "`"])), w).
Proof.
  intros NE F. unfold re_inline_code, backtick.
  rewrite rmatch_literal, rmatch_open, rmatch_greedy, <- app_assoc.
  rewrite (at_least_one_run _ _ _ w _ (1, [])); try assumption.
  - cbn [option_map]. unfold takes, take. cbn [fst snd].
    rewrite length_app, app_nil_r. reflexivity.
  - now apply not_chr_class.
  - apply not_chr_stop.
  - cbn [app]. rewrite closing_single. now rewrite N.eqb_refl.
Qed.

Lemma fence_match prev (body rest : str) :
  ~ In (ch "`") body ->
  rmatch re_fence false prev
    (ch "`" :: (ch "`" :: ch "`" :: body ++ py "```") ++ rest) =
  Some (S (List.length (ch "`" :: ch "`" :: body ++ py "```")), []).
Proof.
  intros F. unfold re_fence, backtick. cbn [app].
  rewrite !rmatch_literal, rmatch_lazy, <- app_assoc.
  rewrite lazy_star_run.
  - change (py "```" ++ rest) with (ch "`" :: ch "`" :: ch "`" :: rest).
    cbn [lazy_star]. rewrite !rmatch_literal.
    cbn [rmatch option_map]. unfold takes, take. cbn [fst snd List.length].
    rewrite length_app. cbn [List.length]. repeat f_equal; lia.
  - reflexivity.
  - intros c y q I. cbn [rmatch cls_match].
    destruct (N.eqb c (ch "`")) eqn:E; [|reflexivity].
    apply N.eqb_eq in E. subst c. contradiction.
Qed.

Lemma link_match prev (w v rest : str) :
  w <> [] -> v <> [] -> ~ In (ch "]") w -> ~ In (ch ")") v ->
  rmatch re_link false prev
    (ch "[" :: (w ++ py "](" ++ v ++ py ")") ++ rest) =
  Some (S (List.length (w ++ py "](" ++ v ++ py ")")), w).
Proof.
  intros Nw Nv Fw Fv. unfold re_link.
  rewrite rmatch_literal, rmatch_open, rmatch_greedy, <- app_assoc.
  change (py "](" ++ v ++ py ")") with (ch "]" :: ch "(" :: v ++ [ch ")"]).
  cbn [app].
  rewrite (at_least_one_run _ _ _ w _ (S (S (List.length v + 1)), []));
    try assumption.
  - cbn [option_map]. unfold takes, take. cbn [fst snd].
    rewrite app_nil_r, length_app. cbn [List.length]. rewrite length_app.
    cbn [List.length]. repeat f_equal; lia.
  - now apply not_chr_class.
  - apply not_chr_stop.
  - change (rmatch (Close :: ?p) true ?q ?s) with (rmatch p false q s).
    rewrite !rmatch_literal, rmatch_greedy, <- app_assoc.
    rewrite (at_least_one_run _ _ _ v _ (1, [])); try assumption.
    + cbn [option_map]. unfold takes, take. cbn [fst snd]. reflexivity.
    + now apply not_chr_class.
    + apply not_chr_stop.
    + cbn [app]. rewrite rmatch_literal. reflexivity.
Qed.

Lemma lacks_spec (x : char) (s : str) : lacks x s = true <-> ~ In x s.
Proof.
  unfold lacks. rewrite negb_true_iff. split.
  - intros E I. assert (T : existsb (N.eqb x) s = true).
    { apply existsb_exists. exists x. split; [exact I | apply N.eqb_refl]. }
    rewrite E in T. discriminate.
  - intros F. destruct (existsb (N.eqb x) s) eqn:E; [|reflexivity].
    apply existsb_exists in E. destruct E as [c [I E]].
    apply N.eqb_eq in E. subst c. contradiction.
Qed.

Lemma lacks_app (x : char) (a b : str) :
  lacks x (a ++ b) = lacks x a && lacks x b.
Proof. unfold lacks. now rewrite existsb_app, negb_orb. Qed.

Lemma word_lacks (x : char) (w : str) :
  word w = true -> is_delimiter x || is_space x = true -> lacks x w = true.
Proof. intros W M. apply lacks_spec. now apply word_no_mark. Qed.

Lemma plain_lacks (x : char) (s : str) :
  plain s = true -> is_delimiter x = true -> lacks x s = true.
Proof.
  intros P D. apply lacks_spec. intros I.
  rewrite plain_spec in P. rewrite (P x I) in D. discriminate.
Qed.

(** The character occurs in none of the pieces of a text made of literals,
    words and plain passages. *)
Ltac absent :=
  apply lacks_spec; rewrite ?lacks_app;
  repeat (apply andb_true_intro; split);
  first [ reflexivity
        | apply word_lacks; [assumption | reflexivity]
        | apply plain_lacks; [assumption | reflexivity] ].

Section CodeAndLinks.
Variables a w v body b : str.
Hypothesis a_word : word a = true.
Hypothesis w_word : word w = true.
Hypothesis v_word : word v = true.
Hypothesis b_word : word b = true.
Hypothesis body_plain : plain body = true.
Hypothesis w_nonempty : w <> [].
Hypothesis v_nonempty : v <> [].
Hypothesis w_label : ~ In (ch "]") w.
Hypothesis v_target : ~ In (ch ")") v.

Lemma sub_inline_code :
  sub re_inline_code group1 (a ++ py "`" ++ w ++ py "`" ++ b) = a ++ w ++ b.
Proof.
  assert (A : ~ In (ch "`") a) by absent.
  assert (W : ~ In (ch "`") w) by absent.
  assert (B : ~ In (ch "`") b) by absent.
  unfold sub.
  rewrite (sub_from_prefix re_inline_code group1 backtick a _ eq_refl
             (class_absent _ _ A)).
  change (py "`" ++ w ++ py "`" ++ b) with (ch "`" :: w ++ [ch "`"] ++ b).
  rewrite (app_assoc w).
  rewrite (sub_from_replace _ _ _ _ _ _ _
             (inline_code_match _ w b w_nonempty W)).
  cbn [group1 expand]. rewrite app_nil_r.
  rewrite (sub_from_untouched re_inline_code group1 backtick eq_refl b _
             (class_absent _ _ B)).
  reflexivity.
Qed.

Lemma sub_fence :
  sub re_fence nothing (a ++ py "```" ++ body ++ py "```" ++ b) = a ++ b.
Proof.
  assert (A : ~ In (ch "`") a) by absent.
  assert (Y : ~ In (ch "`") body) by absent.
  assert (B : ~ In (ch "`") b) by absent.
  unfold sub.
  rewrite (sub_from_prefix re_fence nothing backtick a _ eq_refl
             (class_absent _ _ A)).
  change (py "```" ++ body ++ py "```" ++ b)
    with (ch "`" :: ch "`" :: ch "`" :: body ++ py "```" ++ b).
  rewrite (app_assoc body).
  change (ch "`" :: ch "`" :: ch "`" :: (body ++ py "```") ++ b)
    with (ch "`" :: (ch "`" :: ch "`" :: body ++ py "```") ++ b).
  rewrite (sub_from_replace _ _ _ _ _ _ _ (fence_match _ body b Y)).
  cbn [nothing expand app].
  rewrite (sub_from_untouched re_fence nothing backtick eq_refl b _
             (class_absent _ _ B)).
  reflexivity.
Qed.

Lemma sub_link :
  sub re_link group1 (a ++ py "[" ++ w ++ py "](" ++ v ++ py ")" ++ b) =
  a ++ w ++ b.
Proof.
  assert (A : ~ In (ch "[") a) by absent.
  assert (B : ~ In (ch "[") b) by absent.
  unfold sub.
  rewrite (sub_from_prefix re_link group1 (Lit (ch "[")) a _ eq_refl
             (class_absent _ _ A)).
  change (py "[" ++ w ++ py "](" ++ v ++ py ")" ++ b)
    with (ch "[" :: w ++ py "](" ++ v ++ py ")" ++ b).
  replace (w ++ py "](" ++ v ++ py ")" ++ b)
    with ((w ++ py "](" ++ v ++ py ")") ++ b)
    by (now rewrite <- !app_assoc).
  rewrite (sub_from_replace _ _ _ _ _ _ _
             (link_match _ w v b w_nonempty v_nonempty w_label v_target)).
  cbn [group1 expand]. rewrite app_nil_r.
  rewrite (sub_from_untouched re_link group1 (Lit (ch "[")) eq_refl b _
             (class_absent _ _ B)).
  reflexivity.
Qed.

(** X11. A code span around a word is unwrapped to the word; a fenced
    block is removed with all it holds; a link is replaced by its label. *)
Theorem code_and_links_unwrap :
  clean_response (Some (a ++ py "`" ++ w ++ py "`" ++ b)) =
  Some (a ++ w ++ b) /\
  clean_response (Some (a ++ py "```" ++ body ++ py "```" ++ b)) =
  Some (a ++ b) /\
  clean_response (Some (a ++ py "[" ++ w ++ py "](" ++ v ++ py ")" ++ b)) =
  Some (a ++ w ++ b).
Proof.
  assert (P : word (a ++ w ++ b) = true)
    by (rewrite !word_app, a_word, w_word, b_word; reflexivity).
  assert (Q : word (a ++ b) = true)
    by (rewrite !word_app, a_word, b_word; reflexivity).
  assert (Idle : sub re_fence nothing (a ++ py "`" ++ w ++ py "`" ++ b) =
                 a ++ py "`" ++ w ++ py "`" ++ b).
  { refine (sub_double_idle (ch "`") a w b _ _ _ _ nothing w_nonempty);
      absent. }
  unfold clean_response. rewrite !truthy_middle by discriminate.
  unfold clean_text. cbv zeta.
  split; [|split]; f_equal.
  - rewrite (free_sub re_bold_stars group1 (ch "*")) by (reflexivity || absent).
    rewrite (free_sub re_italic_star group1 (ch "*"))
      by (reflexivity || absent).
    rewrite (free_sub re_italic_underscore group1 (ch "_"))
      by (reflexivity || absent).
    rewrite (free_sub re_bold_underscores group1 (ch "_"))
      by (reflexivity || absent).
    rewrite (free_sub re_header nothing (ch "#")) by (reflexivity || absent).
    rewrite Idle, sub_inline_code. word_rules (a ++ w ++ b) P.
  - rewrite (free_sub re_bold_stars group1 (ch "*")) by (reflexivity || absent).
    rewrite (free_sub re_italic_star group1 (ch "*"))
      by (reflexivity || absent).
    rewrite (free_sub re_italic_underscore group1 (ch "_"))
      by (reflexivity || absent).
    rewrite (free_sub re_bold_underscores group1 (ch "_"))
      by (reflexivity || absent).
    rewrite (free_sub re_header nothing (ch "#")) by (reflexivity || absent).
    rewrite sub_fence. word_rules (a ++ b) Q.
  - rewrite (free_sub re_bold_stars group1 (ch "*")) by (reflexivity || absent).
    rewrite (free_sub re_italic_star group1 (ch "*"))
      by (reflexivity || absent).
    rewrite (free_sub re_italic_underscore group1 (ch "_"))
      by (reflexivity || absent).
    rewrite (free_sub re_bold_underscores group1 (ch "_"))
      by (reflexivity || absent).
    rewrite (free_sub re_header nothing (ch "#")) by (reflexivity || absent).
    rewrite (free_sub re_fence nothing (ch "`")) by (reflexivity || absent).
    rewrite (free_sub re_inline_code group1 (ch "`"))
      by (reflexivity || absent).
    rewrite sub_link. word_rules (a ++ w ++ b) P.
Qed.
End CodeAndLinks.

(** ** Header marks *)

Lemma rmatch_bol (p : regex) ing prev (s : str) :
  rmatch (Bol :: p) ing prev s =
  if at_bol prev then rmatch p ing prev s else None.
Proof. reflexivity. Qed.

Lemma class_stop (k : cls) (s : str) :
  (forall c, In c s -> cls_match k c = false) ->
  starts_with_class k s = false.
Proof.
  destruct s as [|c s]; [reflexivity|]. intros H. apply H. now left.
Qed.

(** At the start of a line [^#+\s*] takes the marks and all the white
    space behind them, newlines included. *)
Lemma header_match prev (m : nat) (ws rest : str) :
  at_bol prev = true ->
  (forall c, In c ws -> is_space c = true) ->
  starts_with_class (Lit (ch "#")) (ws ++ rest) = false ->
  starts_with_class Space rest = false ->
  rmatch re_header false prev
    (ch "#" :: (repeat (ch "#") m ++ ws) ++ rest) =
  Some (S (List.length (repeat (ch "#") m ++ ws)), []).
Proof.
  intros B W H S. unfold re_header. rewrite rmatch_bol, B, rmatch_greedy.
  rewrite <- app_assoc.
  change (ch "#" :: repeat (ch "#") m ++ ws ++ rest)
    with ((ch "#" :: repeat (ch "#") m) ++ ws ++ rest).
  rewrite (at_least_one_run _ _ _ (ch "#" :: repeat (ch "#") m) _
             (takes false ws (0, []))).
  - unfold takes. cbn [fst snd List.length].
    rewrite length_app. repeat f_equal; lia.
  - discriminate.
  - intros c [<- | I]; [reflexivity|]. apply repeat_spec in I. now subst c.
  - exact H.
  - rewrite rmatch_greedy. cbn [at_least].
    apply (greedy_star_run Space false (rmatch [] false) ws W).
    rewrite greedy_star_stop by exact S. reflexivity.
Qed.

(** Away from the start of a line, and up to the next newline, the header
    rule finds nothing. *)
Lemma header_within_line (t : template) (s : str) :
  ~ In nl s ->
  forall prev, at_bol prev = false -> sub_from re_header t prev s = s.
Proof.
  induction s as [|c s IH]; intros F prev B; [now simp sub_from|].
  rewrite sub_from_copy.
  - f_equal. apply IH; [intros I; apply F; now right|].
    cbn [at_bol]. destruct (N.eqb c nl) eqn:E; [|reflexivity].
    apply N.eqb_eq in E. destruct F. now left.
  - unfold re_header. now rewrite rmatch_bol, B.
Qed.

Lemma strip_solid (s : str) :
  (forall c, In c s -> is_space c = false) -> strip s = s.
Proof.
  intros H. apply strip_fixed.
  - intros c rest ->. apply H. now left.
  - intros front c ->. apply H. apply in_or_app. right. now left.
Qed.

Lemma lacks_repeat (x y : char) (n : nat) :
  N.eqb x y = false -> lacks x (repeat y n) = true.
Proof.
  intros E. apply lacks_spec. intros I. apply repeat_spec in I. subst y.
  rewrite N.eqb_refl in E. discriminate.
Qed.

Lemma blank_lacks (x : char) (ws : str) :
  forallb is_space ws = true -> is_delimiter x = true -> lacks x ws = true.
Proof.
  intros B D. apply lacks_spec. intros I. rewrite forallb_forall in B.
  apply B in I. apply space_not_delimiter in I. rewrite I in D. discriminate.
Qed.

Lemma prev_after_snoc prev (s : str) (c : char) :
  prev_after prev (s ++ [c]) = Some c.
Proof. revert prev; induction s as [|x s IH]; intros prev; simpl; auto. Qed.

Ltac absent_in_lines :=
  apply lacks_spec; rewrite ?lacks_app;
  repeat (apply andb_true_intro; split);
  first [ reflexivity
        | apply word_lacks; [assumption | reflexivity]
        | apply lacks_repeat; reflexivity
        | apply blank_lacks; [assumption | reflexivity] ].

Section Headers.
Variable m : nat.
Variables ws a w : str.
Hypothesis ws_blank : forallb is_space ws = true.
Hypothesis a_word : word a = true.
Hypothesis w_word : word w = true.
Hypothesis a_nonempty : a <> [].
Hypothesis w_nonempty : w <> [].

Lemma sub_header_at_line_start prev :
  at_bol prev = true ->
  sub_from re_header nothing prev (repeat (ch "#") (S m) ++ ws ++ w) = w.
Proof.
  intros B. cbn [repeat app]. rewrite app_assoc.
  rewrite (sub_from_replace re_header nothing prev (ch "#")
             (repeat (ch "#") m ++ ws) w []).
  - cbn [nothing expand app]. now apply word_sub_from.
  - apply header_match; [exact B | now apply forallb_forall | |].
    + apply class_stop. intros c I. cbn [cls_match].
      destruct (N.eqb c (ch "#")) eqn:E; [|reflexivity].
      apply N.eqb_eq in E. subst c. exfalso. revert I.
      absent_in_lines.
    + apply class_stop. intros c I. cbn [cls_match].
      apply (proj1 (word_spec w) w_word c I).
Qed.

(** X12. A header mark at the start of the text or of a line is removed
    together with the white space behind it, newlines included; a mark
    inside a line is kept. *)
Theorem header_marks :
  clean_response (Some (repeat (ch "#") (S m) ++ ws ++ w)) = Some w /\
  clean_response (Some (a ++ [nl] ++ repeat (ch "#") (S m) ++ ws ++ w)) =
  Some (a ++ [nl] ++ w) /\
  clean_response (Some (a ++ repeat (ch "#") (S m) ++ w)) =
  Some (a ++ repeat (ch "#") (S m) ++ w).
Proof.
  assert (Wn : forall c, In c w -> cls_match (Lit nl) c = false).
  { apply class_absent. absent_in_lines. }
  assert (An : forall c, In c a -> cls_match (Lit nl) c = false).
  { apply class_absent. absent_in_lines. }
  assert (Ah : forall c, In c (a ++ [nl]) -> cls_match (Lit (ch "#")) c = false).
  { apply class_absent. absent_in_lines. }
  pose proof (prev_after_snoc None a nl) as Last.
  unfold clean_response.
  assert (T : truthy (repeat (ch "#") (S m) ++ ws ++ w) = true) by reflexivity.
  rewrite T.
  rewrite (truthy_middle a [nl]) by discriminate.
  rewrite (truthy_middle a (repeat (ch "#") (S m)) w) by discriminate.
  unfold clean_text. cbv zeta. split; [|split]; f_equal.
  - rewrite (free_sub re_bold_stars group1 (ch "*"))
      by (reflexivity || absent_in_lines).
    rewrite (free_sub re_italic_star group1 (ch "*"))
      by (reflexivity || absent_in_lines).
    rewrite (free_sub re_italic_underscore group1 (ch "_"))
      by (reflexivity || absent_in_lines).
    rewrite (free_sub re_bold_underscores group1 (ch "_"))
      by (reflexivity || absent_in_lines).
    unfold sub at 5. rewrite sub_header_at_line_start by reflexivity.
    word_rules w w_word.
  - rewrite (free_sub re_bold_stars group1 (ch "*"))
      by (reflexivity || absent_in_lines).
    rewrite (free_sub re_italic_star group1 (ch "*"))
      by (reflexivity || absent_in_lines).
    rewrite (free_sub re_italic_underscore group1 (ch "_"))
      by (reflexivity || absent_in_lines).
    rewrite (free_sub re_bold_underscores group1 (ch "_"))
      by (reflexivity || absent_in_lines).
    assert (H : sub re_header nothing
                  (a ++ [nl] ++ repeat (ch "#") (S m) ++ ws ++ w) =
                a ++ [nl] ++ w).
    { unfold sub. rewrite (app_assoc a [nl]).
      rewrite (sub_from_prefix re_header nothing (Lit (ch "#")) (a ++ [nl])
                 _ eq_refl Ah).
      rewrite Last, sub_header_at_line_start by reflexivity.
      now rewrite <- app_assoc. }
    rewrite H.
    rewrite (free_sub re_fence nothing (ch "`"))
      by (reflexivity || absent_in_lines).
    rewrite (free_sub re_inline_code group1 (ch "`"))
      by (reflexivity || absent_in_lines).
    rewrite (free_sub re_link group1 (ch "["))
      by (reflexivity || absent_in_lines).
    assert (C : sub re_newlines two_newlines (a ++ [nl] ++ w) =
                a ++ [nl] ++ w).
    { unfold sub.
      rewrite (sub_from_prefix re_newlines two_newlines (Lit nl) a _
                 eq_refl An).
      cbn [app]. rewrite sub_from_copy.
      - rewrite (sub_from_untouched re_newlines two_newlines (Lit nl)
                   eq_refl w _ Wn). reflexivity.
      - rewrite rmatch_newlines. cbn [lead_nl]. rewrite N.eqb_refl.
        destruct w as [|c w']; [reflexivity|]. cbn [lead_nl].
        pose proof (Wn c (or_introl eq_refl)) as E. cbn [cls_match] in E.
        now rewrite E. }
    rewrite C. apply strip_fixed.
    + intros c rest E. destruct a as [|x a']; [contradiction|].
      inversion E; subst. apply (proj1 (word_spec _) a_word). now left.
    + intros front c E. destruct (exists_last w_nonempty) as [w' [z ->]].
      rewrite !app_assoc in E. apply app_inj_tail in E. destruct E as [_ <-].
      apply (proj1 (word_spec _) w_word). apply in_or_app. right. now left.
  - rewrite (free_sub re_bold_stars group1 (ch "*"))
      by (reflexivity || absent_in_lines).
    rewrite (free_sub re_italic_star group1 (ch "*"))
      by (reflexivity || absent_in_lines).
    rewrite (free_sub re_italic_underscore group1 (ch "_"))
      by (reflexivity || absent_in_lines).
    rewrite (free_sub re_bold_underscores group1 (ch "_"))
      by (reflexivity || absent_in_lines).
    assert (H : sub re_header nothing (a ++ repeat (ch "#") (S m) ++ w) =
                a ++ repeat (ch "#") (S m) ++ w).
    { unfold sub. destruct a as [|c a'] eqn:Ea; [contradiction|].
      rewrite <- Ea in *. assert (N : ~ In nl (a ++ repeat (ch "#") (S m) ++ w))
        by absent_in_lines.
      rewrite Ea in *. cbn [app] in *. rewrite sub_from_copy.
      - f_equal. apply header_within_line.
        + intros I. apply N. now right.
        + cbn [at_bol]. destruct (N.eqb c nl) eqn:E; [|reflexivity].
          apply N.eqb_eq in E. destruct N. now left.
      - destruct (rmatch re_header false None
                    (c :: a' ++ repeat (ch "#") (S m) ++ w))
          as [r|] eqn:M; [|reflexivity].
        destruct (leading_head re_header (Lit (ch "#")) eq_refl _ _ _ _ M)
          as [c' [s' [E K]]].
        inversion E; subst c' s'.
        rewrite (Ah c (or_introl eq_refl)) in K. discriminate. }
    rewrite H.
    rewrite (free_sub re_fence nothing (ch "`"))
      by (reflexivity || absent_in_lines).
    rewrite (free_sub re_inline_code group1 (ch "`"))
      by (reflexivity || absent_in_lines).
    rewrite (free_sub re_link group1 (ch "["))
      by (reflexivity || absent_in_lines).
    rewrite (free_sub re_newlines two_newlines nl)
      by (reflexivity || absent_in_lines).
    apply strip_solid. intros c I.
    apply in_app_or in I. destruct I as [I | I];
      [apply (proj1 (word_spec _) a_word c I)|].
    apply in_app_or in I. destruct I as [I | I];
      [|apply (proj1 (word_spec _) w_word c I)].
    apply repeat_spec in I. now subst c.
Qed.
End Headers.

Lemma code_and_links_unwrap_witness :
  clean_response (Some (py "see" ++ py "`" ++ py "CK" ++ py "`" ++ py "now"))
  = Some (py "see" ++ py "CK" ++ py "now") /\
  clean_response
    (Some (py "see" ++ py "```" ++ (py "x = 1" ++ [nl] ++ py "y (2)") ++
           py "```" ++ py "now"))
  = Some (py "see" ++ py "now") /\
  clean_response
    (Some (py "see" ++ py "[" ++ py "CK" ++ py "](" ++ py "http://x.com" ++
           py ")" ++ py "now"))
  = Some (py "see" ++ py "CK" ++ py "now").
Proof.
  apply (code_and_links_unwrap (py "see") (py "CK") (py "http://x.com")
           (py "x = 1" ++ [nl] ++ py "y (2)") (py "now"));
    first [reflexivity | discriminate | apply lacks_spec; reflexivity].
Defined.

Lemma header_marks_witness :
  clean_response
    (Some (repeat (ch "#") 2 ++ (py " " ++ [nl]) ++ py "Title"))
  = Some (py "Title") /\
  clean_response
    (Some (py "Intro" ++ [nl] ++ repeat (ch "#") 2 ++ (py " " ++ [nl]) ++
           py "Title"))
  = Some (py "Intro" ++ [nl] ++ py "Title") /\
  clean_response (Some (py "Intro" ++ repeat (ch "#") 2 ++ py "Title"))
  = Some (py "Intro" ++ repeat (ch "#") 2 ++ py "Title").
Proof.
  apply (header_marks 1 (py " " ++ [nl]) (py "Intro") (py "Title"));
    first [reflexivity | discriminate].
Defined.
